(** * The asynchronous message pipeline

    A shallow embedding of the message pipeline of the chat backend:
    - [cacheService.js]      the Redis message cache (Hot Store),
    - [firebaseService.js]   the Firestore conversation document (Durable Store),
    - [simpleMessageHandler.js] the ['message:send'] socket handler,
    - [messageQueue.js] / [messageWorker.js] the generation job and its worker,
    - [batchWriteWorker.js]  the delayed batch writer with retry and dead-letter queue.

    JavaScript [async] functions are embedded in a state-and-exception monad
    over a [World] that holds the Redis data, the Firestore collection, the
    clock, and the trace of externally visible effects.  A rejected promise is
    a thrown exception; [await] is sequencing. *)

From stdpp Require Import base gmap strings list fin_maps pretty sorting.

Local Open Scope string_scope.
Local Open Scope list_scope.
Local Open Scope Z_scope.

(** ** Data model *)

(** A chat message, as built by the socket handler and by the worker.
    [characterId] is only present on messages produced by the worker. *)
Record Message := {
  m_id : string;
  m_sender : string;
  m_type : string;
  m_content : string;
  m_timestamp : Z;
  m_conversationId : string;
  m_characterId : option string
}.

Global Instance Message_eq_dec : EqDecision Message.
Proof. solve_decision. Defined.

(** The text stored in a Redis list entry.  The pipeline only ever stores
    [JSON.stringify(message)] there, so a stored text is represented by the
    message it serialises and [JSON.parse] recovers it. *)
Inductive json := JSON_stringify (m : Message).

Definition JSON_parse (j : json) : Message :=
  match j with JSON_stringify m => m end.

(** A record of the dead-letter queue: [messages] are the raw list entries. *)
Record DeadLetterEntry := {
  dl_conversationId : string;
  dl_messages : list json;
  dl_metadata : gmap string string;
  dl_failedAt : Z;
  dl_error : string
}.

(** The conversation document of the [conversations] collection. *)
Record ConversationDoc := {
  d_userId : option string;
  d_characterId : option string;
  d_createdAt : option Z;
  d_updatedAt : option Z;
  d_lastMessage : option string;
  d_messageCount : Z;
  d_messages : list Message
}.

(** A character profile, as far as the pipeline looks at it. *)
Record Character := { ch_id : string; ch_name : string }.

(** Payload of a generation job ([addMessageJob]). *)
Record JobData := {
  j_conversationId : string;
  j_characterId : string;
  j_userMessage : Message;
  j_userId : string
}.

(** [config/environment.js], the part the pipeline reads. *)
Record Config := {
  keyPrefix : string;               (* config.redis.keyPrefix, default 'aim' *)
  ttl_messages : Z;                 (* config.redis.ttl.messages *)
  ttl_character : Z;                (* config.redis.ttl.character *)
  batch_enabled : bool;             (* config.batchWrite.enabled *)
  delaySeconds : Z;                 (* config.batchWrite.delaySeconds *)
  pollIntervalSeconds : Z;          (* config.batchWrite.pollIntervalSeconds *)
  maxMessagesPerBatch : Z;          (* config.batchWrite.maxMessagesPerBatch *)
  retryAttempts : nat               (* config.batchWrite.retryAttempts *)
}.

Definition default_config : Config :=
  {| keyPrefix := "aim"; ttl_messages := 3600; ttl_character := 21600;
     batch_enabled := true; delaySeconds := 120; pollIntervalSeconds := 30;
     maxMessagesPerBatch := 500; retryAttempts := 3 |}.

(** ** Redis *)

(** The Redis data the pipeline uses: lists of serialised messages (the
    message cache and the pending batches), hashes (the batch metadata),
    sorted sets as member/score pairs (the write queue), key expiry, the
    list at key ['dlq:failed_writes'], whose entries are dead-letter records,
    and string values, which hold serialised character profiles (the
    character cache).  Each kind of value has its own map. *)
Record Redis := {
  lists : gmap string (list json);
  hashes : gmap string (gmap string string);
  zsets : gmap string (list (string * Z));
  expiry : gmap string Z;
  dlq : list DeadLetterEntry;
  strings : gmap string Character
}.

Definition empty_redis : Redis :=
  {| lists := ∅; hashes := ∅; zsets := ∅; expiry := ∅; dlq := []; strings := ∅ |}.

(** [LRANGE key start stop] on the list stored at a key. *)
Definition lRange_slice {A} (l : list A) (start stop : Z) : list A :=
  let len := Z.of_nat (length l) in
  let s := if start <? 0 then Z.max 0 (len + start) else start in
  let e := if stop <? 0 then len + stop else Z.min stop (len - 1) in
  if (e <? s) || (len <=? s) then []
  else take (Z.to_nat (e - s + 1)) (drop (Z.to_nat s) l).

(** [Array.prototype.slice(start)]. *)
Definition Array_slice {A} (l : list A) (start : Z) : list A :=
  let len := Z.of_nat (length l) in
  let k := if start <? 0 then Z.max (len + start) 0 else Z.min start len in
  drop (Z.to_nat k) l.

(** [ZADD key score member]: a member occurs once; adding it again moves it. *)
Definition zAdd_set (z : list (string * Z)) (score : Z) (member : string)
  : list (string * Z) :=
  filter (λ e, e.1 ≠ member) z ++ [(member, score)].

Definition zRem_set (z : list (string * Z)) (member : string) : list (string * Z) :=
  filter (λ e, e.1 ≠ member) z.

(** Order of a sorted set: by score, then by member. *)
Definition zset_le (a b : string * Z) : bool :=
  (a.2 <? b.2) || ((a.2 =? b.2) && String.leb a.1 b.1).

Fixpoint zset_insert (a : string * Z) (l : list (string * Z)) : list (string * Z) :=
  match l with
  | [] => [a]
  | b :: l' => if zset_le a b then a :: b :: l' else b :: zset_insert a l'
  end.

Definition zset_sort (l : list (string * Z)) : list (string * Z) :=
  foldr zset_insert [] l.

(** [ZRANGEBYSCORE key -inf max]. *)
Definition zRangeByScore_upto (z : list (string * Z)) (max : Z) : list string :=
  (zset_sort (filter (λ e, e.2 ≤ max) z)).*1.

(** ** Effects and the world *)

Inductive Level := Debug | Info | Warn | Error.

Inductive Ack :=
| AckSuccess (message : Message) (conversationId : string)
| AckFailure (error : string).

(** What the outside can observe, in the order in which it happens. *)
Inductive Effect :=
| Log (level : Level) (text : string)
| RedisCmd (command : string) (key : string)
| FirestoreGet (doc : string)
| FirestoreSet (doc : string)
| EmitMessage (room : string) (message : Message) (conversationId : string)
| EmitTyping (room : string) (event : string) (userId : string) (timestamp : Z)
| Callback (ack : Ack)
| Enqueue (job : JobData).

(** One answer of the response generator: how long it took, and either the
    generated text or the error it was rejected with. *)
Record GenOutcome := { g_latency : N; g_result : string + string }.

(** The world.  [redis_faults] and [firestore_faults] script the outcome of
    the coming operations ([Some e]: the operation is rejected with error [e];
    an exhausted script: the store is healthy); Firestore operations are
    scripted per document.  [generator] scripts the response generator and
    [random] the outcomes of [Math.random]. *)
Record World := {
  redis : Redis;
  redis_faults : list (option string);
  firestore : gmap string ConversationDoc;
  firestore_faults : gmap string (list (option string));
  characters : gmap string Character;
  generator : list GenOutcome;
  random : list string;
  clock : Z;
  trace : list Effect;
  isRunning : bool;
  isShuttingDown : bool;
  lastRunTimestamp : Z
}.

Definition set_redis (f : Redis → Redis) (w : World) : World :=
  {| redis := f (redis w); redis_faults := redis_faults w; firestore := firestore w;
     firestore_faults := firestore_faults w; characters := characters w;
     generator := generator w; random := random w; clock := clock w;
     trace := trace w; isRunning := isRunning w;
     isShuttingDown := isShuttingDown w; lastRunTimestamp := lastRunTimestamp w |}.

Definition set_redis_faults (fs : list (option string)) (w : World) : World :=
  {| redis := redis w; redis_faults := fs; firestore := firestore w;
     firestore_faults := firestore_faults w; characters := characters w;
     generator := generator w; random := random w; clock := clock w;
     trace := trace w; isRunning := isRunning w;
     isShuttingDown := isShuttingDown w; lastRunTimestamp := lastRunTimestamp w |}.

Definition set_firestore (f : gmap string ConversationDoc → gmap string ConversationDoc)
    (w : World) : World :=
  {| redis := redis w; redis_faults := redis_faults w; firestore := f (firestore w);
     firestore_faults := firestore_faults w; characters := characters w;
     generator := generator w; random := random w; clock := clock w;
     trace := trace w; isRunning := isRunning w;
     isShuttingDown := isShuttingDown w; lastRunTimestamp := lastRunTimestamp w |}.

Definition set_firestore_faults (fs : gmap string (list (option string)))
    (w : World) : World :=
  {| redis := redis w; redis_faults := redis_faults w; firestore := firestore w;
     firestore_faults := fs; characters := characters w;
     generator := generator w; random := random w; clock := clock w;
     trace := trace w; isRunning := isRunning w;
     isShuttingDown := isShuttingDown w; lastRunTimestamp := lastRunTimestamp w |}.

Definition set_generator (g : list GenOutcome) (w : World) : World :=
  {| redis := redis w; redis_faults := redis_faults w; firestore := firestore w;
     firestore_faults := firestore_faults w; characters := characters w;
     generator := g; random := random w; clock := clock w;
     trace := trace w; isRunning := isRunning w;
     isShuttingDown := isShuttingDown w; lastRunTimestamp := lastRunTimestamp w |}.

Definition set_random (r : list string) (w : World) : World :=
  {| redis := redis w; redis_faults := redis_faults w; firestore := firestore w;
     firestore_faults := firestore_faults w; characters := characters w;
     generator := generator w; random := r; clock := clock w;
     trace := trace w; isRunning := isRunning w;
     isShuttingDown := isShuttingDown w; lastRunTimestamp := lastRunTimestamp w |}.

Definition set_clock (t : Z) (w : World) : World :=
  {| redis := redis w; redis_faults := redis_faults w; firestore := firestore w;
     firestore_faults := firestore_faults w; characters := characters w;
     generator := generator w; random := random w; clock := t;
     trace := trace w; isRunning := isRunning w;
     isShuttingDown := isShuttingDown w; lastRunTimestamp := lastRunTimestamp w |}.

Definition add_trace (e : Effect) (w : World) : World :=
  {| redis := redis w; redis_faults := redis_faults w; firestore := firestore w;
     firestore_faults := firestore_faults w; characters := characters w;
     generator := generator w; random := random w; clock := clock w;
     trace := trace w ++ [e]; isRunning := isRunning w;
     isShuttingDown := isShuttingDown w; lastRunTimestamp := lastRunTimestamp w |}.

Definition set_isRunning (b : bool) (w : World) : World :=
  {| redis := redis w; redis_faults := redis_faults w; firestore := firestore w;
     firestore_faults := firestore_faults w; characters := characters w;
     generator := generator w; random := random w; clock := clock w;
     trace := trace w; isRunning := b;
     isShuttingDown := isShuttingDown w; lastRunTimestamp := lastRunTimestamp w |}.

Definition set_isShuttingDown (b : bool) (w : World) : World :=
  {| redis := redis w; redis_faults := redis_faults w; firestore := firestore w;
     firestore_faults := firestore_faults w; characters := characters w;
     generator := generator w; random := random w; clock := clock w;
     trace := trace w; isRunning := isRunning w;
     isShuttingDown := b; lastRunTimestamp := lastRunTimestamp w |}.

Definition set_lastRunTimestamp (t : Z) (w : World) : World :=
  {| redis := redis w; redis_faults := redis_faults w; firestore := firestore w;
     firestore_faults := firestore_faults w; characters := characters w;
     generator := generator w; random := random w; clock := clock w;
     trace := trace w; isRunning := isRunning w;
     isShuttingDown := isShuttingDown w; lastRunTimestamp := t |}.

(** ** The monad of asynchronous functions *)

Inductive Result (A : Type) :=
| Ok (a : A)
| Throw (error : string).
Arguments Ok {A} a.
Arguments Throw {A} error.

Definition M (A : Type) : Type := World → Result A * World.

Definition ret {A} (a : A) : M A := λ w, (Ok a, w).

Definition bind {A B} (m : M A) (k : A → M B) : M B :=
  λ w, match m w with
       | (Ok a, w') => k a w'
       | (Throw e, w') => (Throw e, w')
       end.

Definition throw {A} (e : string) : M A := λ w, (Throw e, w).

(** [try { m } catch (error) { h error }]: what [m] did before it threw stays done. *)
Definition try_catch {A} (m : M A) (h : string → M A) : M A :=
  λ w, match m w with
       | (Ok a, w') => (Ok a, w')
       | (Throw e, w') => h e w'
       end.

(** [try { m } finally { f }]. *)
Definition try_finally {A} (m : M A) (f : World → World) : M A :=
  λ w, match m w with (r, w') => (r, f w') end.

Definition gets {A} (f : World → A) : M A := λ w, (Ok (f w), w).
Definition modify (f : World → World) : M unit := λ w, (Ok tt, f w).

Global Instance M_ret : MRet M := @ret.
Global Instance M_bind : MBind M := λ A B k m, bind m k.

Definition run {A} (m : M A) (w : World) : Result A * World := m w.
Definition exec {A} (m : M A) (w : World) : World := (m w).2.
Definition outcome {A} (m : M A) (w : World) : Result A := (m w).1.

Fixpoint for_each {A} (l : list A) (body : A → M unit) : M unit :=
  match l with
  | [] => ret tt
  | x :: l' => bind (body x) (λ _, for_each l' body)
  end.

(** [logger.<level>(text, ...)]. *)
Definition logger (lvl : Level) (text : string) : M unit :=
  modify (add_trace (Log lvl text)).

(** [Date.now()]. *)
Definition Date_now : M Z := gets clock.

(** [await new Promise(resolve => setTimeout(resolve, ms))]. *)
Definition sleep (ms : Z) : M unit := modify (λ w, set_clock (clock w + ms) w).

(** [Math.random().toString(36).substr(2, 9)]. *)
Definition Math_random : M string :=
  λ w, (Ok (hd "" (random w)), set_random (tail (random w)) w).

(** A Redis command (or a [MULTI] ... [EXEC] transaction) is sent: it shows in
    the trace, consumes one entry of the fault script, and is rejected when
    that entry says so. *)
Definition redis_send (command key : string) : M unit :=
  λ w, let w1 := add_trace (RedisCmd command key) w in
       match redis_faults w with
       | [] => (Ok tt, w1)
       | None :: fs => (Ok tt, set_redis_faults fs w1)
       | Some e :: fs => (Throw e, set_redis_faults fs w1)
       end.

(** The writing Redis commands of the pipeline. *)
Inductive RedisWrite :=
| LPush (key : string) (value : json)
| RPush (key : string) (value : json)
| RPushDeadLetter (key : string) (entry : DeadLetterEntry)
| Expire (key : string) (seconds : Z)
| HSet (key : string) (fields : list (string * string))
| ZAdd (key : string) (score : Z) (member : string)
| ZRem (key : string) (member : string)
| Del (key : string)
| SetEx (key : string) (seconds : Z) (value : Character)
| SetValue (key : string) (value : Character).

Definition command_name (c : RedisWrite) : string :=
  match c with
  | LPush _ _ => "lPush" | RPush _ _ => "rPush" | RPushDeadLetter _ _ => "rPush"
  | Expire _ _ => "expire" | HSet _ _ => "hSet" | ZAdd _ _ _ => "zAdd"
  | ZRem _ _ => "zRem" | Del _ => "del"
  | SetEx _ _ _ => "setEx" | SetValue _ _ => "set"
  end.

Definition command_key (c : RedisWrite) : string :=
  match c with
  | LPush k _ | RPush k _ | RPushDeadLetter k _ | Expire k _ | HSet k _
  | ZAdd k _ _ | ZRem k _ | Del k | SetEx k _ _ | SetValue k _ => k
  end.

Definition key_exists (r : Redis) (key : string) : bool :=
  bool_decide (is_Some (lists r !! key)) || bool_decide (is_Some (hashes r !! key))
  || bool_decide (is_Some (zsets r !! key)) || bool_decide (is_Some (strings r !! key)).

Definition apply_write (c : RedisWrite) (r : Redis) : Redis :=
  match c with
  | LPush key v =>
      {| lists := <[key := v :: default [] (lists r !! key)]> (lists r);
         hashes := hashes r; zsets := zsets r; expiry := expiry r; dlq := dlq r;
         strings := strings r |}
  | RPush key v =>
      {| lists := <[key := default [] (lists r !! key) ++ [v]]> (lists r);
         hashes := hashes r; zsets := zsets r; expiry := expiry r; dlq := dlq r;
         strings := strings r |}
  | RPushDeadLetter _ e =>
      {| lists := lists r; hashes := hashes r; zsets := zsets r;
         expiry := expiry r; dlq := dlq r ++ [e]; strings := strings r |}
  | Expire key seconds =>
      {| lists := lists r; hashes := hashes r; zsets := zsets r;
         expiry := if key_exists r key then <[key := seconds]> (expiry r) else expiry r;
         dlq := dlq r; strings := strings r |}
  | HSet key fields =>
      {| lists := lists r;
         hashes := <[key := foldl (λ h kv, <[kv.1 := kv.2]> h)
                                   (default ∅ (hashes r !! key)) fields]> (hashes r);
         zsets := zsets r; expiry := expiry r; dlq := dlq r; strings := strings r |}
  | ZAdd key score member =>
      {| lists := lists r; hashes := hashes r;
         zsets := <[key := zAdd_set (default [] (zsets r !! key)) score member]> (zsets r);
         expiry := expiry r; dlq := dlq r; strings := strings r |}
  | ZRem key member =>
      {| lists := lists r; hashes := hashes r;
         zsets := match zsets r !! key with
                  | Some z => <[key := zRem_set z member]> (zsets r)
                  | None => zsets r
                  end;
         expiry := expiry r; dlq := dlq r; strings := strings r |}
  | Del key =>
      {| lists := delete key (lists r); hashes := delete key (hashes r);
         zsets := delete key (zsets r); expiry := delete key (expiry r);
         dlq := dlq r; strings := delete key (strings r) |}
  | SetEx key seconds value =>
      {| lists := lists r; hashes := hashes r; zsets := zsets r;
         expiry := <[key := seconds]> (expiry r); dlq := dlq r;
         strings := <[key := value]> (strings r) |}
  | SetValue key value =>
      {| lists := lists r; hashes := hashes r; zsets := zsets r;
         expiry := delete key (expiry r); dlq := dlq r;
         strings := <[key := value]> (strings r) |}
  end.

(** [await redis.<command>(key, ...)]. *)
Definition redis_write (c : RedisWrite) : M unit :=
  redis_send (command_name c) (command_key c) ;;
  modify (set_redis (apply_write c)).

(** [await multi.exec()]: the queued commands take effect together, or,
    when the transaction is rejected, not at all. *)
Definition multi_exec (queued : list RedisWrite) : M unit :=
  redis_send "exec" "" ;;
  modify (set_redis (λ r, foldl (λ r c, apply_write c r) r queued)).

Definition redis_lRange (key : string) (start stop : Z) : M (list json) :=
  redis_send "lRange" key ;;
  r ← gets redis;
  mret (lRange_slice (default [] (lists r !! key)) start stop).

Definition redis_hGetAll (key : string) : M (gmap string string) :=
  redis_send "hGetAll" key ;;
  r ← gets redis;
  mret (default ∅ (hashes r !! key)).

Definition redis_zRangeByScore (key : string) (max : Z) : M (list string) :=
  redis_send "zRangeByScore" key ;;
  r ← gets redis;
  mret (zRangeByScore_upto (default [] (zsets r !! key)) max).

(** [GET key]. *)
Definition redis_get (key : string) : M (option Character) :=
  redis_send "get" key ;;
  r ← gets redis;
  mret (strings r !! key).

(** [SETEX key seconds value]; Redis refuses an expire time that is not
    positive. *)
Definition redis_setEx (key : string) (seconds : Z) (value : Character) : M unit :=
  redis_send "setEx" key ;;
  if seconds <=? 0 then throw "ERR invalid expire time in 'setex' command"
  else modify (set_redis (apply_write (SetEx key seconds value))).

(** [LLEN key]; the list at ['dlq:failed_writes'] is the dead-letter queue. *)
Definition redis_lLen (key : string) : M Z :=
  redis_send "lLen" key ;;
  r ← gets redis;
  mret (if decide (key = "dlq:failed_writes") then Z.of_nat (length (dlq r))
        else Z.of_nat (length (default [] (lists r !! key)))).

(** [Promise.all([a, b])]: both are started; the first rejection, if any, is
    the rejection of the whole. *)
Definition Promise_all2 {A B} (a : M A) (b : M B) : M (A * B) :=
  λ w, match a w with
       | (ra, w1) =>
           match b w1 with
           | (rb, w2) =>
               match ra, rb with
               | Ok x, Ok y => (Ok (x, y), w2)
               | Throw e, _ => (Throw e, w2)
               | Ok _, Throw e => (Throw e, w2)
               end
           end
       end.

(** ** Firestore *)

(** A document of the [conversations] collection is named by its identifier,
    a document of the [characters] collection by ['characters/'] followed by
    its identifier. *)
Definition firestore_send (doc : string) (e : Effect) : M unit :=
  λ w, let w1 := add_trace e w in
       match firestore_faults w !! doc with
       | None | Some [] => (Ok tt, w1)
       | Some (None :: fs) => (Ok tt, set_firestore_faults (<[doc := fs]> (firestore_faults w)) w1)
       | Some (Some e :: fs) =>
           (Throw e, set_firestore_faults (<[doc := fs]> (firestore_faults w)) w1)
       end.

(** [await db.collection('conversations').doc(id).get()]. *)
Definition doc_get (doc : string) : M (option ConversationDoc) :=
  firestore_send doc (FirestoreGet doc) ;;
  fs ← gets firestore;
  mret (fs !! doc).

(** [await db.collection('characters').doc(id).get()]. *)
Definition character_get (characterId : string) : M (option Character) :=
  firestore_send ("characters/" +:+ characterId)
    (FirestoreGet ("characters/" +:+ characterId)) ;;
  cs ← gets characters;
  mret (cs !! characterId).

(** [FieldValue.arrayUnion(...elements)] applied to the stored array: each
    element that is not yet in the array is appended, in order. *)
Fixpoint arrayUnion (arr elements : list Message) : list Message :=
  match elements with
  | [] => arr
  | e :: es => arrayUnion (if decide (e ∈ arr) then arr else arr ++ [e]) es
  end.

(** The [updateData] object of [saveConversation]. *)
Record UpdateData := {
  u_userId : option string;
  u_characterId : option string;
  u_updatedAt : Z;
  u_lastMessage : string;
  u_messageCount : Z;          (* FieldValue.increment(n) *)
  u_messages : list Message;   (* FieldValue.arrayUnion(...messages) *)
  u_createdAt : option Z
}.

(** [docRef.set(updateData, { merge: true })] on the stored document.  The
    Firestore client is configured with [ignoreUndefinedProperties], so an
    undefined field is left as it is. *)
Definition merge_update (old : option ConversationDoc) (u : UpdateData) : ConversationDoc :=
  {| d_userId := match u_userId u with Some x => Some x | None => old ≫= d_userId end;
     d_characterId :=
       match u_characterId u with Some x => Some x | None => old ≫= d_characterId end;
     d_createdAt := match u_createdAt u with Some t => Some t | None => old ≫= d_createdAt end;
     d_updatedAt := Some (u_updatedAt u);
     d_lastMessage := Some (u_lastMessage u);
     d_messageCount := from_option d_messageCount 0 old + u_messageCount u;
     d_messages := arrayUnion (from_option d_messages [] old) (u_messages u) |}.

Definition doc_set_merge (doc : string) (u : UpdateData) : M unit :=
  firestore_send doc (FirestoreSet doc) ;;
  modify (set_firestore (λ fs, <[doc := merge_update (fs !! doc) u]> fs)).

(** [await db.collection('conversations').doc(id).delete()]: a write sent to
    the document, which removes it. *)
Definition doc_delete (doc : string) : M unit :=
  firestore_send doc (FirestoreSet doc) ;;
  modify (set_firestore (delete doc)).

(** [Array.prototype.sort((a, b) => a.timestamp - b.timestamp)]: the sort is
    stable, entries with equal timestamps keep their order. *)
Fixpoint insert_by_timestamp (m : Message) (l : list Message) : list Message :=
  match l with
  | [] => [m]
  | x :: l' =>
      if m_timestamp m <=? m_timestamp x then m :: x :: l'
      else x :: insert_by_timestamp m l'
  end.

Definition sort_by_timestamp (l : list Message) : list Message :=
  foldr insert_by_timestamp [] l.

(** ** [utils/redisKeys.js] *)

Definition PENDING_MESSAGES : string := "pending_messages".
Definition CONVERSATION_META : string := "conversation_meta".
Definition WRITE_QUEUE : string := "write_queue".
Definition DLQ : string := "dlq:failed_writes".

Definition buildKey (prefix : string) (parts : list string) : string :=
  prefix +:+ ":" +:+ String.concat ":" parts.

Definition buildBatchWriteKey (type conversationId : string) : string :=
  buildKey type [conversationId].

(** ** [services/deepseekService.js]: the prompt *)

(** The character data the prompt is built from.  A missing field is [None];
    an empty text counts as missing ([if (character.description)]), an empty
    array of traits does not. *)
Record CharacterData := {
  c_name : string;
  c_description : option string;
  c_personality : option string;
  c_traits : option (list string)
}.

(** An entry of the [messages] array of a chat completion request. *)
Record ChatMessage := { role : string; content : string }.

Definition newline : string := String (Ascii.ascii_of_nat 10) EmptyString.

Definition truthy (text : option string) : option string :=
  match text with
  | Some t => if decide (t = EmptyString) then None else Some t
  | None => None
  end.

Definition guidelines : list string :=
  ["Conversation guidelines:";
   "- Stay in character at all times";
   "- Keep responses conversational and engaging";
   "- Respond naturally as if you're having a real conversation";
   "- Keep responses concise (under 200 words typically)";
   "- Don't break character or mention that you're an AI"].

Definition buildSystemPrompt (character : CharacterData) : string :=
  let prompt := "You are " +:+ c_name character in
  let prompt :=
    match truthy (c_description character) with
    | Some description => prompt +:+ ". " +:+ description
    | None => prompt
    end in
  let prompt :=
    match truthy (c_personality character) with
    | Some personality => prompt +:+ newline +:+ newline +:+ "Personality: " +:+ personality
    | None => prompt
    end in
  let prompt :=
    match c_traits character with
    | Some traits =>
        prompt +:+ newline +:+ newline +:+ "Key traits: " +:+ String.concat ", " traits
    | None => prompt
    end in
  prompt +:+ newline +:+ newline +:+ String.concat newline guidelines.

(** [buildMessagesArray]: the system prompt, then the last ten entries of
    the history, those of the user as ['user'], those of the character as
    ['assistant']; entries of any other sender are left out.  The
    [userMessage] argument is not used. *)
Definition buildMessagesArray (character : CharacterData)
    (conversationHistory : list Message) (userMessage : string) : list ChatMessage :=
  let systemPrompt := buildSystemPrompt character in
  let messages := [{| role := "system"; content := systemPrompt |}] in
  let recentHistory := Array_slice conversationHistory (-10) in
  foldl (λ messages msg,
           if decide (m_sender msg = "user")
           then messages ++ [{| role := "user"; content := m_content msg |}]
           else if decide (m_sender msg = "character")
           then messages ++ [{| role := "assistant"; content := m_content msg |}]
           else messages)
        messages recentHistory.

Section Pipeline.

Variable config : Config.

(** [JSON.stringify(...).length] of the data of a stored document and of an
    array of messages.  The pipeline only compares their sum with a
    threshold, to warn about the size of a document. *)
Variable JSON_length_doc : ConversationDoc → Z.
Variable JSON_length_messages : list Message → Z.

Definition buildCacheKey (type : string) (identifiers : list string) : string :=
  buildKey (keyPrefix config) (type :: identifiers).

(** ** [services/cacheService.js] *)

Definition pushMessage (conversationId : string) (message : Message) : M unit :=
  try_catch
    (let key := buildCacheKey "messages" [conversationId] in
     redis_write (LPush key (JSON_stringify message)) ;;
     redis_write (Expire key (ttl_messages config)) ;;
     logger Debug "Message pushed to cache")
    (λ error,
       logger Error "Error pushing message to cache:" ;;
       throw error).

(** [getMessages] of the cache service, exported as [getMessageList]. *)
Definition getMessageList (conversationId : string) (limit : Z) : M (list Message) :=
  try_catch
    (let key := buildCacheKey "messages" [conversationId] in
     messages ← redis_lRange key 0 (limit - 1);
     mret (reverse (JSON_parse <$> messages)))
    (λ error,
       logger Error "Error getting messages from cache:" ;;
       mret []).

(** [getCacheValue] and [setCacheValue], for the values the pipeline keeps
    under string keys: character profiles.  Neither throws. *)
Definition getCacheValue (key : string) : M (option Character) :=
  try_catch
    (value ← redis_get key;
     mret value)
    (λ error,
       logger Error "Error getting cache value:" ;;
       mret None).

Definition setCacheValue (key : string) (value : Character) (ttl : Z) : M unit :=
  try_catch
    ((if decide (ttl = 0) then redis_write (SetValue key value)
      else redis_setEx key ttl value) ;;
     logger Debug "Cache set")
    (λ error, logger Error "Error setting cache value:").

Definition deleteCacheValue (key : string) : M unit :=
  try_catch
    (redis_write (Del key) ;;
     logger Debug "Cache deleted")
    (λ error, logger Error "Error deleting cache value:").

Definition clearMessages (conversationId : string) : M unit :=
  try_catch
    (let key := buildCacheKey "messages" [conversationId] in
     redis_write (Del key) ;;
     logger Debug "Messages cleared for conversation")
    (λ error, logger Error "Error clearing messages from cache:").

(** ** [services/characterService.js] *)

(** [getCharacterById]: the cache first, then the document of the
    [characters] collection, which is then cached.  The profile returned for
    a document is [{ id: doc.id, ...doc.data() }]. *)
Definition getCharacterById (characterId : string) : M (option Character) :=
  try_catch
    (let cacheKey := buildCacheKey "character" [characterId] in
     logger Debug "Checking character cache" ;;
     cachedData ← getCacheValue cacheKey;
     match cachedData with
     | Some cached =>
         logger Info "Character cache HIT" ;;
         mret (Some cached)
     | None =>
         logger Info "Character cache MISS" ;;
         doc ← character_get characterId;
         match doc with
         | None =>
             logger Warn "Character not found in Firebase" ;;
             mret None
         | Some data =>
             let characterData := {| ch_id := characterId; ch_name := ch_name data |} in
             setCacheValue cacheKey characterData (ttl_character config) ;;
             logger Info "Character cached successfully" ;;
             mret (Some characterData)
         end
     end)
    (λ error,
       logger Error "Error getting character" ;;
       throw error).

(** ** [services/firebaseService.js] *)

Definition lastMessage_of (messages : list Message) : string :=
  match last messages with
  | Some m => if decide (m_content m = "") then "Message" else m_content m
  | None => "Message"
  end.

(** [saveConversation].  [FieldValue.arrayUnion()] rejects an empty argument
    list. *)
Definition saveConversation (conversationId : string) (userId characterId : option string)
    (messages : list Message) : M unit :=
  try_catch
    (timestamp ← Date_now;
     (if decide (messages = [])
      then throw "Function FieldValue.arrayUnion() requires at least 1 argument."
      else mret tt) ;;
     docSnapshot ← doc_get conversationId;
     let updateData :=
       {| u_userId := userId; u_characterId := characterId;
          u_updatedAt := timestamp;
          u_lastMessage := lastMessage_of messages;
          u_messageCount := Z.of_nat (length messages);
          u_messages := messages;
          u_createdAt := match docSnapshot with None => Some timestamp | Some _ => None end |} in
     (match docSnapshot with
      | None => logger Debug "Creating new conversation document"
      | Some existingData =>
          let estimatedDocSize := JSON_length_doc existingData in
          let newMessageSize := JSON_length_messages messages in
          let projectedSize := estimatedDocSize + newMessageSize in
          if 800000 <? projectedSize
          then logger Warn "Document size approaching limit"
          else mret tt
      end) ;;
     doc_set_merge conversationId updateData ;;
     logger Info "Conversation saved optimized")
    (λ error,
       logger Error "Error saving conversation optimized" ;;
       throw error).

(** [getMessages] of the Firebase service: cache first, then the document. *)
Definition getMessages (conversationId : string) (limit : Z) : M (list Message) :=
  try_catch
    (logger Debug "Checking messages cache" ;;
     cachedMessages ← getMessageList conversationId limit;
     if (0 <? Z.of_nat (length cachedMessages)) then
       logger Info "Messages cache HIT" ;;
       mret cachedMessages
     else
       logger Info "Messages cache MISS" ;;
       docSnapshot ← doc_get conversationId;
       orderedMessages ←
         match docSnapshot with
         | Some conversationData =>
             let sortedMessages :=
               Array_slice (sort_by_timestamp (d_messages conversationData)) (- limit) in
             logger Debug "Messages retrieved from single document" ;;
             mret sortedMessages
         | None =>
             logger Debug "Conversation document not found" ;;
             mret []
         end;
       logger Debug "Populating messages cache" ;;
       for_each orderedMessages (λ message, pushMessage conversationId message) ;;
       logger Info "Messages cached successfully" ;;
       mret orderedMessages)
    (λ error,
       logger Error "Error getting messages" ;;
       throw error).

(** [batchSaveMessages]: the exchange is handed to [saveConversation], the
    user message first. *)
Definition batchSaveMessages (conversationId : string) (userMessage aiMessage : Message)
    (userId characterId : option string) : M (Message * Message) :=
  try_catch
    (saveConversation conversationId userId characterId [userMessage; aiMessage] ;;
     logger Info "Batch saved messages (optimized)" ;;
     mret (userMessage, aiMessage))
    (λ error,
       logger Error "Error batch saving messages (optimized):" ;;
       throw error).

(** [deleteConversation]: the document is deleted, then the cached messages
    and the cached conversation data, whose deletion never throws.  The
    conversation data cached under ['conversation'] is not part of [Redis]. *)
Definition deleteConversation (conversationId : string) : M unit :=
  try_catch
    (doc_delete conversationId ;;
     deleteCacheValue (buildCacheKey "messages" [conversationId]) ;;
     deleteCacheValue (buildCacheKey "conversation" [conversationId]) ;;
     logger Info "Conversation deleted (optimized)")
    (λ error,
       logger Error "Error deleting conversation (optimized):" ;;
       throw error).

(** ** [queues/messageQueue.js] *)

(** [queue.add('process-message', data, ...)]: the job reaches the queue
    unless Redis rejects the command. *)
Definition queue_add (data : JobData) : M unit :=
  redis_send "bullmq:add" "message-processing" ;;
  modify (add_trace (Enqueue data)).

Definition addMessageJob (data : JobData) : M unit :=
  try_catch
    (queue_add data ;;
     logger Info "Message job added to queue")
    (λ error,
       logger Error "Failed to add message job:" ;;
       throw error).

(** ** [handlers/simpleMessageHandler.js] *)

(** The [data] of a ['message:send'] event; a missing field is the empty
    string, which the handler treats the same way. *)
Record SendData := {
  s_characterId : string;
  s_content : string;
  s_type : option string
}.

Definition room_of (conversationId : string) : string :=
  "conversation:" +:+ conversationId.

(** [socket.on('message:send', async (data, callback) => ...)] for the
    socket of user [userId]. *)
Definition on_message_send (userId : string) (data : SendData) : M unit :=
  try_catch
    (let characterId := s_characterId data in
     let content := s_content data in
     let type := default "text" (s_type data) in
     if bool_decide (characterId = "") || bool_decide (content = "") then
       modify (add_trace (Callback (AckFailure "Missing required fields")))
     else
       logger Info "Processing message" ;;
       let conversationId := userId +:+ "_" +:+ characterId in
       timestamp ← Date_now;
       rnd ← Math_random;
       let messageId := "msg_" +:+ pretty timestamp +:+ "_" +:+ rnd in
       let userMessage :=
         {| m_id := messageId; m_sender := "user"; m_type := type;
            m_content := content; m_timestamp := timestamp;
            m_conversationId := conversationId; m_characterId := None |} in
       logger Debug "Saving user message to cache" ;;
       pushMessage conversationId userMessage ;;
       logger Debug "User message saved to cache" ;;
       modify (add_trace (EmitMessage (room_of conversationId) userMessage conversationId)) ;;
       modify (add_trace (Callback (AckSuccess userMessage conversationId))) ;;
       logger Debug "Queueing AI response job" ;;
       try_catch
         (addMessageJob
            {| j_conversationId := conversationId; j_characterId := characterId;
               j_userMessage := userMessage; j_userId := userId |} ;;
          logger Debug "AI response job queued successfully")
         (λ error, logger Error "Failed to queue AI response job:"))
    (λ error,
       logger Error "Error processing message:" ;;
       modify (add_trace (Callback (AckFailure "Failed to process message")))).

(** ** [workers/messageWorker.js] *)

(** The response generator ([generateResponse]) is an external service: it
    takes its time and then answers or fails. *)
Definition generateResponse (character : Character) (conversationHistory : list Message)
    (userMessage : string) : M string :=
  λ w, match generator w with
       | [] => (Throw "Response generator unavailable", w)
       | g :: gs =>
           let w1 := set_clock (clock w + Z.of_N (g_latency g)) (set_generator gs w) in
           match g_result g with
           | inl text => (Ok text, w1)
           | inr e => (Throw e, w1)
           end
       end.

Definition queueMessagesForBatchWrite (conversationId userId characterId : string)
    (messages : list Message) : M unit :=
  try_catch
    (createdAt ← Date_now;
     now ← Date_now;
     let writeTime := now + delaySeconds config * 1000 in
     multi_exec
       (((λ message, RPush (buildBatchWriteKey PENDING_MESSAGES conversationId)
                           (JSON_stringify message)) <$> messages)
        ++ [HSet (buildBatchWriteKey CONVERSATION_META conversationId)
                 [("userId", userId); ("characterId", characterId);
                  ("createdAt", pretty createdAt)];
            ZAdd WRITE_QUEUE writeTime conversationId]) ;;
     logger Info "Messages queued for batch write")
    (λ error,
       logger Error "Error queuing messages for batch write" ;;
       saveConversation conversationId (Some userId) (Some characterId) messages).

(** [processMessage(data, io)]; [io] tells whether a socket server is attached.
    It returns the identifier of the generated message. *)
Definition processMessage (data : JobData) (io : bool) : M string :=
  let conversationId := j_conversationId data in
  let characterId := j_characterId data in
  let userMessage := j_userMessage data in
  let userId := j_userId data in
  try_catch
    (logger Info "Processing message job" ;;
     logger Debug "Fetching character data" ;;
     character ← getCharacterById characterId;
     match character with
     | None => throw ("Character not found: " +:+ characterId)
     | Some character =>
         logger Debug "Fetching conversation history" ;;
         conversationHistory ← getMessages conversationId 20;
         logger Debug "Conversation history retrieved" ;;
         logger Info "DeepSeek API call data sources" ;;
         (if io then
            now ← Date_now;
            modify (add_trace (EmitTyping (room_of conversationId) "typing:start" characterId now))
          else mret tt) ;;
         aiResponse ← generateResponse character conversationHistory (m_content userMessage);
         timestamp ← Date_now;
         rnd ← Math_random;
         let messageId := "msg_" +:+ pretty timestamp +:+ "_" +:+ rnd in
         let aiMessage :=
           {| m_id := messageId; m_sender := "character"; m_type := "text";
              m_content := aiResponse; m_timestamp := timestamp;
              m_conversationId := conversationId; m_characterId := Some characterId |} in
         pushMessage conversationId aiMessage ;;
         (if io then
            now ← Date_now;
            modify (add_trace (EmitTyping (room_of conversationId) "typing:stop" characterId now)) ;;
            modify (add_trace (EmitMessage (room_of conversationId) aiMessage conversationId))
          else mret tt) ;;
         (if batch_enabled config then
            queueMessagesForBatchWrite conversationId userId characterId
              [userMessage; aiMessage]
          else
            try_catch
              (saveConversation conversationId (Some userId) (Some characterId)
                 [userMessage; aiMessage])
              (λ error, logger Error "Error saving conversation to Firebase:")) ;;
         logger Info "Message processed successfully" ;;
         mret (m_id aiMessage)
     end)
    (λ error,
       logger Error "Error processing message:" ;;
       (if io then
          now ← Date_now;
          rnd ← Math_random;
          timestamp ← Date_now;
          let errorMessage :=
            {| m_id := "error_" +:+ pretty now +:+ "_" +:+ rnd; m_sender := "system";
               m_type := "error";
               m_content :=
                 "Sorry, I encountered an error while processing your message. Please try again.";
               m_timestamp := timestamp; m_conversationId := conversationId;
               m_characterId := None |} in
          modify (add_trace (EmitMessage (room_of conversationId) errorMessage conversationId))
        else mret tt) ;;
       throw error).

(** The options of the job queue ([initializeMessageQueue],
    [defaultJobOptions]): [attempts: 3] and
    [backoff: { type: 'exponential', delay: 2000 }]. *)
Definition job_attempts : nat := 3.
Definition job_backoff_delay : Z := 2000.

Inductive JobState :=
| Completed (messageId : string) (attemptsMade : nat)
| Failed (failedReason : string) (attemptsMade : nat).

(** Modelled from the spec: the retry loop of the job queue.  The queue is
    the BullMQ library, whose loop is not part of the source; the source
    gives it its options and its processor, [processMessage].  As the spec
    says, a job that fails is retried up to the fixed attempt count with
    exponential backoff, and on final failure the job is marked failed and
    not requeued.  [attemptsMade] counts the attempts made so far; the delay
    after the [n]-th failed attempt is [delay * 2 ^ (n - 1)]. *)
Fixpoint run_job_from (attemptsLeft attemptsMade : nat) (data : JobData) (io : bool)
  : M JobState :=
  match attemptsLeft with
  | O => mret (Failed "no attempts left" attemptsMade)
  | S remaining =>
      try_catch
        (messageId ← processMessage data io;
         mret (Completed messageId (S attemptsMade)))
        (λ error,
           match remaining with
           | O => mret (Failed error (S attemptsMade))
           | S _ =>
               sleep (job_backoff_delay * 2 ^ Z.of_nat attemptsMade) ;;
               run_job_from remaining (S attemptsMade) data io
           end)
  end.

Definition run_job (data : JobData) (io : bool) : M JobState :=
  run_job_from job_attempts 0 data io.

(** ** [workers/batchWriteWorker.js] *)

(** [retry(fn, { retries })]: [fn] is tried for [i = 0 .. retries]. *)
Fixpoint retry_loop {A} (fn : M A) (retries i : nat) (iterations : nat)
    (lastError : string) : M A :=
  match iterations with
  | O => throw lastError
  | S iterations' =>
      try_catch fn
        (λ error,
           (if (i <? retries)%nat then sleep (2 ^ Z.of_nat i * 1000) else mret tt) ;;
           retry_loop fn retries (S i) iterations' error)
  end.

Definition retry {A} (fn : M A) (retries : nat) : M A :=
  retry_loop fn retries 0 (S retries) "undefined".

Definition cleanupConversationKeys (conversationId : string) : M unit :=
  multi_exec [Del (buildBatchWriteKey PENDING_MESSAGES conversationId);
              Del (buildBatchWriteKey CONVERSATION_META conversationId)].

Definition handleFailedWrite (conversationId : string) (error : string) : M unit :=
  logger Error ("Failed to write batch after " +:+ pretty (retryAttempts config) +:+ " retries") ;;
  try_catch
    ('(messages, metadata) ←
       Promise_all2
         (redis_lRange (buildBatchWriteKey PENDING_MESSAGES conversationId) 0 (-1))
         (redis_hGetAll (buildBatchWriteKey CONVERSATION_META conversationId));
     failedAt ← Date_now;
     redis_write (RPushDeadLetter DLQ
       {| dl_conversationId := conversationId; dl_messages := messages;
          dl_metadata := metadata; dl_failedAt := failedAt; dl_error := error |}) ;;
     cleanupConversationKeys conversationId)
    (λ dlqError, logger Error "Failed to add to DLQ").

Definition writeConversationBatch (conversationId : string) : M unit :=
  try_catch
    ('(messages, metadata) ←
       Promise_all2
         (redis_lRange (buildBatchWriteKey PENDING_MESSAGES conversationId) 0 (-1))
         (redis_hGetAll (buildBatchWriteKey CONVERSATION_META conversationId));
     if decide (length messages = 0%nat) then
       cleanupConversationKeys conversationId
     else
       messagesToWrite ←
         (if maxMessagesPerBatch config <? Z.of_nat (length messages) then
            logger Warn "Batch size exceeded, truncating" ;;
            mret (Array_slice messages (- maxMessagesPerBatch config))
          else mret messages);
       let parsedMessages := JSON_parse <$> messagesToWrite in
       retry (saveConversation conversationId (metadata !! "userId")
                (metadata !! "characterId") parsedMessages)
             (retryAttempts config) ;;
       cleanupConversationKeys conversationId ;;
       logger Info "Batch write successful")
    (λ error, handleFailedWrite conversationId error).

(** One turn of the loop of [processWriteQueue] over the due conversations;
    [conversationsProcessed] is the list the loop accumulates: a conversation
    is pushed on it as soon as its batch is written, before [zRem] is
    awaited, and both failures are caught by the same handler. *)
Definition process_conversation (conversationId : string)
    (conversationsProcessed : list string) : M (list string) :=
  try_catch
    (writeConversationBatch conversationId ;;
     let pushed := conversationsProcessed ++ [conversationId] in
     try_catch
       (redis_write (ZRem WRITE_QUEUE conversationId) ;;
        mret pushed)
       (λ error,
          logger Error "Error processing conversation batch" ;;
          mret pushed))
    (λ error,
       logger Error "Error processing conversation batch" ;;
       mret conversationsProcessed).

Fixpoint process_due (dueConversations conversationsProcessed : list string)
  : M (list string) :=
  match dueConversations with
  | [] => mret conversationsProcessed
  | conversationId :: rest =>
      processed ← process_conversation conversationId conversationsProcessed;
      process_due rest processed
  end.

Definition processWriteQueue : M unit :=
  running ← gets isRunning;
  shuttingDown ← gets isShuttingDown;
  if running || shuttingDown then mret tt
  else
    modify (set_isRunning true) ;;
    lastRun ← Date_now;
    modify (set_lastRunTimestamp lastRun) ;;
    try_finally
      (try_catch
         (now ← Date_now;
          dueConversations ← redis_zRangeByScore WRITE_QUEUE now;
          conversationsProcessed ← process_due dueConversations [];
          if (0 <? Z.of_nat (length conversationsProcessed)) then
            logger Info "Batch write queue processed"
          else mret tt)
         (λ error, logger Error "Error processing write queue"))
      (set_isRunning false).

(** [initializeBatchWriteWorker] and [shutdownBatchWriteWorker].  The timer
    that [setInterval] starts and [clearInterval] stops belongs to the event
    loop: each of its ticks is a call of [processWriteQueue]. *)
Definition initializeBatchWriteWorker : M unit :=
  if negb (batch_enabled config) then
    logger Info "Batch write worker is disabled"
  else
    logger Info "Initializing batch write worker" ;;
    processWriteQueue.

Definition shutdownBatchWriteWorker : M unit :=
  if negb (batch_enabled config) then mret tt
  else
    logger Info "Shutting down batch write worker..." ;;
    modify (set_isShuttingDown true) ;;
    processWriteQueue ;;
    logger Info "Batch write worker shut down".

(** The report of [getBatchWriteHealth]. *)
Record BatchWriteHealth := {
  h_status : string;
  h_lastRun : Z;
  h_dlqSize : Z;
  h_isRunning : bool;
  h_enabled : bool;
  h_delaySeconds : Z;
  h_pollIntervalSeconds : Z
}.

Definition getBatchWriteHealth : M BatchWriteHealth :=
  dlqSize ← redis_lLen DLQ;
  now ← Date_now;
  lastRun ← gets lastRunTimestamp;
  let timeSinceLastRun := now - lastRun in
  running ← gets isRunning;
  mret {| h_status := if timeSinceLastRun <? pollIntervalSeconds config * 2 * 1000
                      then "healthy" else "degraded";
          h_lastRun := lastRun;
          h_dlqSize := dlqSize;
          h_isRunning := running;
          h_enabled := batch_enabled config;
          h_delaySeconds := delaySeconds config;
          h_pollIntervalSeconds := pollIntervalSeconds config |}.

(** ** Observations *)

(** The acknowledgments given to senders, the messages broadcast to rooms
    and the jobs handed to the queue, as they appear in a trace. *)
Definition callbacks (t : list Effect) : list Ack :=
  omap (λ e, match e with Callback a => Some a | _ => None end) t.

Definition broadcasts (t : list Effect) : list (string * Message) :=
  omap (λ e, match e with EmitMessage room m _ => Some (room, m) | _ => None end) t.

Definition enqueued (t : list Effect) : list JobData :=
  omap (λ e, match e with Enqueue j => Some j | _ => None end) t.

(** The operations sent to the durable store. *)
Definition durable_ops (t : list Effect) : list Effect :=
  omap (λ e, match e with FirestoreGet _ | FirestoreSet _ => Some e | _ => None end) t.

Definition warnings (t : list Effect) : list string :=
  omap (λ e, match e with Log Warn text => Some text | _ => None end) t.

(** The typing indicators sent to rooms. *)
Definition typing_events (t : list Effect) : list (string * string) :=
  omap (λ e, match e with EmitTyping room event _ _ => Some (room, event) | _ => None end) t.

(** What is sent to the rooms: messages and typing indicators. *)
Definition emitted (w : World) : list (string * Message) * list (string * string) :=
  (broadcasts (trace w), typing_events (trace w)).

(** The state of the batch writer: its guards and the time of its last pass. *)
Definition worker_state (w : World) : bool * bool * Z :=
  (isRunning w, isShuttingDown w, lastRunTimestamp w).

(** A part of the world is the same after a step as before. *)
Definition unchanged {A} (f : World → A) (w w' : World) : Prop := f w' = f w.

(** The dead-letter queue after a step extends the one before. *)
Definition dlq_grows (w w' : World) : Prop := dlq (redis w) `prefix_of` dlq (redis w').

(** The write to the Hot Store is rejected: Redis rejects [lPush], or
    accepts it and rejects [expire]. *)
Definition hot_store_write_fails (w : World) : bool :=
  match redis_faults w with
  | Some _ :: _ => true
  | None :: Some _ :: _ => true
  | _ => false
  end.

(** The write queue and the pending batch of a conversation. *)
Definition write_queue (w : World) : list (string * Z) :=
  default [] (zsets (redis w) !! WRITE_QUEUE).

Definition pending_batch (conversationId : string) (w : World) : list json :=
  default [] (lists (redis w) !! buildBatchWriteKey PENDING_MESSAGES conversationId).

Definition batch_metadata (conversationId : string) (w : World) : gmap string string :=
  default ∅ (hashes (redis w) !! buildBatchWriteKey CONVERSATION_META conversationId).

Definition schedule_entries (conversationId : string) (w : World) : list (string * Z) :=
  filter (λ e, e.1 = conversationId) (write_queue w).

Definition dead_letters (conversationId : string) (w : World) : list DeadLetterEntry :=
  filter (λ e, dl_conversationId e = conversationId) (dlq (redis w)).

(** No fault is scripted for the document of a conversation. *)
Definition firestore_healthy (conversationId : string) (w : World) : Prop :=
  firestore_faults w !! conversationId = None.

(** The [updateData] that [saveConversation] builds in a world, and the world
    it leaves when the durable store accepts the write. *)
Definition save_update (conversationId : string) (userId characterId : option string)
    (messages : list Message) (w : World) : UpdateData :=
  {| u_userId := userId; u_characterId := characterId;
     u_updatedAt := clock w;
     u_lastMessage := lastMessage_of messages;
     u_messageCount := Z.of_nat (length messages);
     u_messages := messages;
     u_createdAt := match firestore w !! conversationId with
                    | None => Some (clock w)
                    | Some _ => None
                    end |}.

(** The warning [saveConversation] logs about the size of the document. *)
Definition size_warnings (conversationId : string) (messages : list Message) (w : World)
  : list string :=
  match firestore w !! conversationId with
  | Some existingData =>
      if 800000 <? JSON_length_doc existingData + JSON_length_messages messages
      then ["Document size approaching limit"]
      else []
  | None => []
  end.

Definition saved (conversationId : string) (userId characterId : option string)
    (messages : list Message) (w : World) : World :=
  add_trace (Log Info "Conversation saved optimized")
    (set_firestore
       (λ fs, <[conversationId :=
                  merge_update (fs !! conversationId)
                    (save_update conversationId userId characterId messages w)]> fs)
       (add_trace (FirestoreSet conversationId)
          ((match firestore w !! conversationId with
            | None => add_trace (Log Debug "Creating new conversation document")
            | Some existingData =>
                if 800000 <? JSON_length_doc existingData + JSON_length_messages messages
                then add_trace (Log Warn "Document size approaching limit")
                else λ w, w
            end) (add_trace (FirestoreGet conversationId) w)))).

(** Redis once the pending batch and the metadata of a conversation are
    deleted. *)
Definition cleared (conversationId : string) (r : Redis) : Redis :=
  apply_write (Del (buildBatchWriteKey CONVERSATION_META conversationId))
    (apply_write (Del (buildBatchWriteKey PENDING_MESSAGES conversationId)) r).

(** The messages a flush hands to the durable merge, the world in which the
    merge is first attempted, and the worlds a flush ends in: after a merge
    that succeeded in [w1], and after a merge that was given up in [w1] with
    error [e]. *)
Definition flush_entries (conversationId : string) (w : World) : list json :=
  if maxMessagesPerBatch config <? Z.of_nat (length (pending_batch conversationId w))
  then Array_slice (pending_batch conversationId w) (- maxMessagesPerBatch config)
  else pending_batch conversationId w.

Definition before_merge (conversationId : string) (w : World) : World :=
  (if maxMessagesPerBatch config <? Z.of_nat (length (pending_batch conversationId w))
   then add_trace (Log Warn "Batch size exceeded, truncating")
   else λ w, w)
    (add_trace (RedisCmd "hGetAll" (buildBatchWriteKey CONVERSATION_META conversationId))
       (add_trace (RedisCmd "lRange" (buildBatchWriteKey PENDING_MESSAGES conversationId))
          w)).

Definition flush_merge (conversationId : string) (w : World) : M unit :=
  retry (saveConversation conversationId
           (batch_metadata conversationId w !! "userId")
           (batch_metadata conversationId w !! "characterId")
           (JSON_parse <$> flush_entries conversationId w))
        (retryAttempts config).

Definition flushed (conversationId : string) (w1 : World) : World :=
  add_trace (Log Info "Batch write successful")
    (set_redis (cleared conversationId) (add_trace (RedisCmd "exec" "") w1)).

Definition dead_letter_of (conversationId : string) (e : string) (w1 : World)
  : DeadLetterEntry :=
  {| dl_conversationId := conversationId;
     dl_messages := pending_batch conversationId w1;
     dl_metadata := batch_metadata conversationId w1;
     dl_failedAt := clock w1;
     dl_error := e |}.

Definition dead_lettered (conversationId : string) (e : string) (w1 : World) : World :=
  set_redis (cleared conversationId)
    (add_trace (RedisCmd "exec" "")
       (set_redis (apply_write (RPushDeadLetter DLQ (dead_letter_of conversationId e w1)))
          (add_trace (RedisCmd "rPush" DLQ)
             (add_trace (RedisCmd "hGetAll"
                           (buildBatchWriteKey CONVERSATION_META conversationId))
                (add_trace (RedisCmd "lRange"
                              (buildBatchWriteKey PENDING_MESSAGES conversationId))
                   (add_trace
                      (Log Error ("Failed to write batch after "
                                  +:+ pretty (retryAttempts config) +:+ " retries"))
                      w1)))))).



(** What the batch writer holds about one conversation. *)
Definition slice (conversationId : string) (w : World) :=
  (lists (redis w) !! buildBatchWriteKey PENDING_MESSAGES conversationId,
   hashes (redis w) !! buildBatchWriteKey CONVERSATION_META conversationId,
   schedule_entries conversationId w,
   dead_letters conversationId w,
   firestore_faults w !! conversationId,
   firestore w !! conversationId).


(** A step that touches nothing but the message cache and the log. *)
Definition quiet_step (w w' : World) : Prop :=
  redis_faults w' = redis_faults w
  ∧ firestore w' = firestore w
  ∧ firestore_faults w' = firestore_faults w
  ∧ clock w' = clock w
  ∧ generator w' = generator w
  ∧ random w' = random w
  ∧ broadcasts (trace w') = broadcasts (trace w).

(** The message the worker builds from the text the generator returned as
    outcome [g] to a job started in world [w]. *)
Definition response_message (data : JobData) (text : string) (g : GenOutcome)
    (w : World) : Message :=
  let timestamp := clock w + Z.of_N (g_latency g) in
  {| m_id := "msg_" +:+ pretty timestamp +:+ "_" +:+ hd "" (random w);
     m_sender := "character"; m_type := "text"; m_content := text;
     m_timestamp := timestamp; m_conversationId := j_conversationId data;
     m_characterId := Some (j_characterId data) |}.

(** The message the socket handler builds for an event received in world
    [w], and the job it hands to the queue. *)
Definition user_message (userId : string) (data : SendData) (w : World) : Message :=
  {| m_id := "msg_" +:+ pretty (clock w) +:+ "_" +:+ hd "" (random w);
     m_sender := "user"; m_type := default "text" (s_type data);
     m_content := s_content data; m_timestamp := clock w;
     m_conversationId := userId +:+ "_" +:+ s_characterId data;
     m_characterId := None |}.

Definition job_of (userId : string) (data : SendData) (w : World) : JobData :=
  {| j_conversationId := userId +:+ "_" +:+ s_characterId data;
     j_characterId := s_characterId data;
     j_userMessage := user_message userId data w;
     j_userId := userId |}.

(** The jobs handed to the queue so far. *)
Definition jobs (w : World) : list JobData := enqueued (trace w).

(** What happens between two moments: operations of the pipeline, and the
    passing of time, which moves the clock forward. *)
Inductive Activity :=
| MessageSent (userId : string) (data : SendData)
| JobRun (data : JobData) (io : bool)
| BatchPass
| HistoryRead (conversationId : string) (limit : Z)
| TimePasses (ms : N).

Definition perform (a : Activity) (w : World) : World :=
  match a with
  | MessageSent userId data => exec (on_message_send userId data) w
  | JobRun data io => exec (run_job data io) w
  | BatchPass => exec processWriteQueue w
  | HistoryRead conversationId limit => exec (getMessages conversationId limit) w
  | TimePasses ms => set_clock (clock w + Z.of_N ms) w
  end.

Definition after (activities : list Activity) (w : World) : World :=
  foldl (λ w a, perform a w) w activities.

(** Ascending order of timestamps. *)
Definition ascending (l : list Message) : Prop :=
  StronglySorted (λ x y, m_timestamp x ≤ m_timestamp y) l.

(** ** Example data *)

Definition world0 : World :=
  {| redis := empty_redis; redis_faults := []; firestore := ∅; firestore_faults := ∅;
     characters := {[ "c1" := {| ch_id := "c1"; ch_name := "Ann" |} ]};
     generator := [ {| g_latency := 1000%N; g_result := inl "Hi there" |} ];
     random := ["abc"; "def"]; clock := 0; trace := [];
     isRunning := false; isShuttingDown := false; lastRunTimestamp := 0 |}.

Definition hello : SendData :=
  {| s_characterId := "c1"; s_content := "Hello"; s_type := None |}.

Definition message_at (t : Z) (sender text : string) : Message :=
  {| m_id := "msg_" +:+ pretty t; m_sender := sender; m_type := "text";
     m_content := text; m_timestamp := t; m_conversationId := "u1_c1";
     m_characterId := None |}.

(** Redis rejects the next command. *)
Definition world_redis_down : World :=
  set_redis_faults [Some "ECONNREFUSED"] world0.

(** A batch of two messages is pending for ['u1_c1'] and due at 120 s. *)
Definition redis_pending : Redis :=
  {| lists := {[ "pending_messages:u1_c1" :=
                   [JSON_stringify (message_at 0 "user" "Hello");
                    JSON_stringify (message_at 1000 "character" "Hi there")] ]};
     hashes := {[ "conversation_meta:u1_c1" :=
                    {[ "userId" := "u1"; "characterId" := "c1"; "createdAt" := "1000" ]} ]};
     zsets := {[ "write_queue" := [("u1_c1", 121000)] ]};
     expiry := ∅; dlq := []; strings := ∅ |}.

Definition world_pending : World :=
  set_clock 121000 (set_redis (λ _, redis_pending) world0).

(** The same, with a durable store that rejects the next four operations on
    the document of ['u1_c1']. *)
Definition world_durable_down : World :=
  set_firestore_faults
    {[ "u1_c1" := [Some "UNAVAILABLE"; Some "UNAVAILABLE"; Some "UNAVAILABLE";
                   Some "DEADLINE_EXCEEDED"] ]}
    world_pending.

(** Two messages are cached for ['u1_c1'], the one appended last bearing the
    earlier timestamp. *)
Definition world_cached : World :=
  set_redis
    (λ r, {| lists := {[ "aim:messages:u1_c1" :=
                           [JSON_stringify (message_at 1 "character" "Hi there");
                            JSON_stringify (message_at 2 "user" "Hello")] ]};
             hashes := hashes r; zsets := zsets r; expiry := expiry r; dlq := dlq r;
             strings := strings r |})
    world0.

(** The response generator fails three times in a row. *)
Definition world_generator_down : World :=
  set_generator
    [ {| g_latency := 100%N; g_result := inr "AI service unavailable: timeout" |};
      {| g_latency := 100%N; g_result := inr "AI service unavailable: timeout" |};
      {| g_latency := 100%N; g_result := inr "AI service unavailable: overloaded" |} ]
    world0.

(** For the examples, the JSON text of a message is taken to be 200
    characters long. *)
Definition sample_length_doc (d : ConversationDoc) : Z :=
  200 + 200 * Z.of_nat (length (d_messages d)).

Definition sample_length_messages (l : list Message) : Z :=
  2 + 200 * Z.of_nat (length l).

(** Configurations with a batch limit of one and of zero messages. *)
Definition config_max (n : Z) : Config :=
  {| keyPrefix := "aim"; ttl_messages := 3600; ttl_character := 21600;
     batch_enabled := true; delaySeconds := 120; pollIntervalSeconds := 30;
     maxMessagesPerBatch := n; retryAttempts := 3 |}.

(** * Verification *)

Arguments String.append : simpl never.
Arguments pretty : simpl never.
Arguments saved : simpl never.
Arguments retry : simpl never.
Arguments saveConversation : simpl never.
Arguments getMessages : simpl never.
Arguments pushMessage : simpl never.
Arguments queueMessagesForBatchWrite : simpl never.
Arguments getCharacterById : simpl never.

(** Unfolding of the monad and of the primitive operations. *)
Ltac munfold :=
  cbv [mbind M_bind bind mret M_ret ret logger modify gets throw try_catch try_finally
       Date_now Math_random sleep redis_write redis_send multi_exec redis_lRange
       redis_hGetAll redis_zRangeByScore Promise_all2 firestore_send doc_get doc_set_merge
       generateResponse redis_get redis_setEx character_get queue_add exec run outcome].

(** Traces are kept as [trace w ++ [e1; ...; en]]. *)
Ltac trace_norm := rewrite <- ?app_assoc; simpl.

Lemma callbacks_app t1 t2 : callbacks (t1 ++ t2) = callbacks t1 ++ callbacks t2.
Proof. apply omap_app. Qed.

Lemma broadcasts_app t1 t2 : broadcasts (t1 ++ t2) = broadcasts t1 ++ broadcasts t2.
Proof. apply omap_app. Qed.

Lemma enqueued_app t1 t2 : enqueued (t1 ++ t2) = enqueued t1 ++ enqueued t2.
Proof. apply omap_app. Qed.

Lemma warnings_app t1 t2 : warnings (t1 ++ t2) = warnings t1 ++ warnings t2.
Proof. apply omap_app. Qed.

Lemma durable_ops_app t1 t2 : durable_ops (t1 ++ t2) = durable_ops t1 ++ durable_ops t2.
Proof. apply omap_app. Qed.

(** ** The socket handler when the Hot Store is down *)

(** A cache read that Redis rejects yields the empty list. *)
Lemma getMessageList_rejected conversationId limit w e rest :
  redis_faults w = Some e :: rest →
  outcome (getMessageList conversationId limit) w = Ok [].
Proof. intros H. unfold getMessageList. munfold. cbn. by rewrite H. Qed.

(** C1 (as amended).  On a well-formed ['message:send'] event whose Hot Store
    write fails, the sender is acknowledged exactly once, with a failure; the
    cache failure is logged, nothing is broadcast and no job is enqueued.  A
    cache read that fails yields the empty list. *)
Theorem message_send_hot_store_failure userId data w :
  s_characterId data ≠ "" →
  s_content data ≠ "" →
  hot_store_write_fails w = true →
  let w' := exec (on_message_send userId data) w in
  callbacks (trace w') = callbacks (trace w) ++ [AckFailure "Failed to process message"]
  ∧ broadcasts (trace w') = broadcasts (trace w)
  ∧ enqueued (trace w') = enqueued (trace w)
  ∧ Log Error "Error pushing message to cache:" ∈ trace w'
  ∧ (∀ limit e rest, redis_faults w = Some e :: rest →
       outcome (getMessageList (userId +:+ "_" +:+ s_characterId data) limit) w = Ok []).
Proof.
  intros Hc Hk Hf w'. subst w'. unfold hot_store_write_fails in Hf.
  assert (Hrun : ∃ t, trace (exec (on_message_send userId data) w) = trace w ++ t
            ∧ callbacks t = [AckFailure "Failed to process message"]
            ∧ broadcasts t = [] ∧ enqueued t = []
            ∧ Log Error "Error pushing message to cache:" ∈ t).
  { unfold on_message_send, pushMessage.
    rewrite (bool_decide_eq_false_2 _ Hc), (bool_decide_eq_false_2 _ Hk).
    munfold. destruct (redis_faults w) as [|[e|] [|[e'|] rest]] eqn:E; try done;
      repeat (cbn; rewrite ?E); trace_norm;
      (eexists; split; [reflexivity|]); repeat split; try done; set_solver. }
  destruct Hrun as (t & -> & Hcb & Hbr & Henq & Hlog).
  rewrite callbacks_app, broadcasts_app, enqueued_app, Hcb, Hbr, Henq, !app_nil_r.
  repeat split; try done.
  - set_solver.
  - intros limit e rest E. by eapply getMessageList_rejected.
Qed.

(** ** Invariance along a computation *)

(** [preserves R m]: whatever [m] does, and whether it returns or throws,
    the world it leaves is related by [R] to the world it started in. *)
Definition preserves {A} (R : World → World → Prop) (m : M A) : Prop :=
  ∀ w, R w (m w).2.

Section Preserves.
Context (R : World → World → Prop) `{!PreOrder R}.

Lemma preserves_ret {A} (a : A) : preserves R (mret a).
Proof. intros w. simpl. reflexivity. Qed.

Lemma preserves_throw {A} e : preserves R (@throw A e).
Proof. intros w. simpl. reflexivity. Qed.

Lemma preserves_gets {A} (f : World → A) : preserves R (gets f).
Proof. intros w. simpl. reflexivity. Qed.

Lemma preserves_bind {A B} (m : M A) (k : A → M B) :
  preserves R m → (∀ a, preserves R (k a)) → preserves R (m ≫= k).
Proof.
  intros Hm Hk w. specialize (Hm w). munfold.
  destruct (m w) as [[a|e] w1]; simpl in *; [|done].
  etrans; [exact Hm | apply Hk].
Qed.

Lemma preserves_try_catch {A} (m : M A) (h : string → M A) :
  preserves R m → (∀ e, preserves R (h e)) → preserves R (try_catch m h).
Proof.
  intros Hm Hh w. specialize (Hm w). munfold.
  destruct (m w) as [[a|e] w1]; simpl in *; [done|].
  etrans; [exact Hm | apply Hh].
Qed.

Lemma preserves_try_finally {A} (m : M A) (f : World → World) :
  preserves R m → (∀ w, R w (f w)) → preserves R (try_finally m f).
Proof.
  intros Hm Hf w. specialize (Hm w). munfold.
  destruct (m w) as [r w1]; simpl in *. etrans; [exact Hm | apply Hf].
Qed.

Lemma preserves_all2 {A B} (a : M A) (b : M B) :
  preserves R a → preserves R b → preserves R (Promise_all2 a b).
Proof.
  intros Ha Hb w. specialize (Ha w). munfold.
  destruct (a w) as [ra w1]. specialize (Hb w1).
  destruct (b w1) as [rb w2]. simpl in *.
  assert (R w w2) by (etrans; eauto).
  destruct ra, rb; done.
Qed.

Lemma preserves_for_each {A} (l : list A) (body : A → M unit) :
  (∀ a, preserves R (body a)) → preserves R (for_each l body).
Proof.
  intros Hb. induction l as [|a l IH]; simpl.
  - apply (preserves_ret tt).
  - apply (preserves_bind (body a) (λ _, for_each l body)); auto.
Qed.
End Preserves.

(** A primitive operation: unfold it and look at every case. *)
Ltac preserves_prim :=
  let w := fresh "w" in
  intros w; munfold; repeat case_match; simplify_eq/=; try done.

(** One structural step through the body of a function. *)
Ltac preserves_step :=
  lazymatch goal with
  | |- preserves _ (mbind _ _) => apply preserves_bind; [apply _| |intros ?]
  | |- preserves _ (try_catch _ _) => apply preserves_try_catch; [apply _| |intros ?]
  | |- preserves _ (try_finally _ _) => apply preserves_try_finally; [apply _| |intros ?]
  | |- preserves _ (Promise_all2 _ _) => apply preserves_all2; [apply _| |]
  | |- preserves _ (for_each _ _) => apply preserves_for_each; [apply _|intros ?]
  | |- preserves _ (mret _) => apply preserves_ret; apply _
  | |- preserves _ (throw _) => apply preserves_throw; apply _
  | |- preserves _ (gets _) => apply preserves_gets; apply _
  | |- preserves _ (match ?x with _ => _ end) => destruct x
  | |- preserves _ (let _ := _ in _) => cbv zeta
  end.

Ltac preserves_body := repeat preserves_step; try (preserves_prim; fail).

Global Instance unchanged_preorder {A} (f : World → A) : PreOrder (unchanged f).
Proof. split; [by intros w|]. unfold unchanged. intros w1 w2 w3 H1 H2. congruence. Qed.

Ltac unchanged_prim :=
  let w := fresh "w" in
  intros w; munfold; unfold unchanged, worker_state, emitted, jobs;
  repeat case_match; simplify_eq/=;
  rewrite ?broadcasts_app, ?enqueued_app, ?callbacks_app;
  unfold typing_events; rewrite ?omap_app; simpl;
  rewrite ?app_nil_r; try done.

Ltac unchanged_body := repeat preserves_step; try (unchanged_prim; fail).

(** Redis is neither read nor written. *)
Definition redis_untouched (w w' : World) : Prop :=
  redis w' = redis w ∧ redis_faults w' = redis_faults w.

Global Instance redis_untouched_preorder : PreOrder redis_untouched.
Proof.
  split; [by intros w|]. intros w1 w2 w3 [? ?] [? ?]. split; congruence.
Qed.

Lemma saveConversation_redis c u ch msgs :
  preserves redis_untouched (saveConversation c u ch msgs).
Proof. unfold saveConversation. preserves_body. Qed.

(** ** The durable merge *)

Lemma arrayUnion_keeps arr es x : x ∈ arr → x ∈ arrayUnion arr es.
Proof.
  revert arr. induction es as [|e es IH]; intros arr Hx; simpl; [done|].
  apply IH. case_decide; set_solver.
Qed.

Lemma arrayUnion_adds arr es x : x ∈ es → x ∈ arrayUnion arr es.
Proof.
  revert arr. induction es as [|e es IH]; intros arr Hx; simpl; [set_solver|].
  apply elem_of_cons in Hx as [->|Hx]; [|by apply IH].
  apply arrayUnion_keeps. case_decide; set_solver.
Qed.

Lemma arrayUnion_present arr es : (∀ x, x ∈ es → x ∈ arr) → arrayUnion arr es = arr.
Proof.
  induction es as [|e es IH]; intros H; simpl; [done|].
  rewrite decide_True by set_solver. apply IH. set_solver.
Qed.

Lemma arrayUnion_NoDup arr es : NoDup arr → NoDup (arrayUnion arr es).
Proof.
  revert arr. induction es as [|e es IH]; intros arr H; simpl; [done|].
  apply IH. case_decide; [done|].
  apply NoDup_app. repeat split; [done|set_solver|apply NoDup_singleton].
Qed.

Lemma merge_update_adds old u m : m ∈ u_messages u → m ∈ d_messages (merge_update old u).
Proof. apply arrayUnion_adds. Qed.

(** The union is idempotent. *)
Lemma arrayUnion_idemp arr es : arrayUnion (arrayUnion arr es) es = arrayUnion arr es.
Proof. apply arrayUnion_present. intros x. apply arrayUnion_adds. Qed.

(** What [saveConversation] does when the durable store accepts the write. *)
Lemma saveConversation_ok c u ch msgs w :
  firestore_healthy c w → msgs ≠ [] →
  saveConversation c u ch msgs w = (Ok tt, saved c u ch msgs w).
Proof.
  unfold firestore_healthy, saveConversation, saved, save_update. intros Hh Hm. munfold.
  rewrite decide_False by done. cbn. rewrite Hh. cbn.
  destruct (firestore w !! c) eqn:E; cbn; rewrite ?Hh; cbn; rewrite ?E; try done.
  destruct (800000 <? _); cbn; rewrite ?Hh; cbn; rewrite ?E; done.
Qed.

(** The fields of the world after an accepted [saveConversation]. *)
Lemma saved_firestore c u ch msgs w :
  firestore (saved c u ch msgs w) =
  <[c := merge_update (firestore w !! c) (save_update c u ch msgs w)]> (firestore w).
Proof.
  unfold saved. destruct (firestore w !! c) eqn:E; [destruct (800000 <? _)|];
    cbn; by rewrite ?E.
Qed.

Lemma saved_frame c u ch msgs w :
  redis (saved c u ch msgs w) = redis w
  ∧ redis_faults (saved c u ch msgs w) = redis_faults w
  ∧ firestore_faults (saved c u ch msgs w) = firestore_faults w
  ∧ clock (saved c u ch msgs w) = clock w
  ∧ generator (saved c u ch msgs w) = generator w
  ∧ random (saved c u ch msgs w) = random w
  ∧ characters (saved c u ch msgs w) = characters w.
Proof. unfold saved. by destruct (firestore w !! c); [destruct (800000 <? _)|]. Qed.

Lemma saved_trace c u ch msgs w :
  ∃ t, trace (saved c u ch msgs w) = trace w ++ t
       ∧ durable_ops t = [FirestoreGet c; FirestoreSet c]
       ∧ callbacks t = [] ∧ broadcasts t = [] ∧ enqueued t = []
       ∧ warnings t = size_warnings c msgs w.
Proof.
  unfold saved, size_warnings. destruct (firestore w !! c); [destruct (800000 <? _)|];
    cbn; trace_norm; eexists; split; done.
Qed.

(** C2 (as amended).  When the durable merge is called twice with the same
    conversation, participants and messages, the second call leaves the
    [messages] array as the first call left it (nothing is duplicated) and
    leaves the participants, [createdAt] and [lastMessage] unchanged; but it
    adds the number of messages to [messageCount] once more and sets
    [updatedAt] to the time of the second call. *)
Theorem saveConversation_twice c u ch msgs w t' :
  firestore_healthy c w →
  msgs ≠ [] →
  let w1 := exec (saveConversation c u ch msgs) w in
  let w2 := exec (saveConversation c u ch msgs) (set_clock t' w1) in
  ∃ d1 d2,
    firestore w1 !! c = Some d1 ∧ firestore w2 !! c = Some d2
    ∧ d_messages d2 = d_messages d1
    ∧ (∀ m, m ∈ msgs → m ∈ d_messages d1)
    ∧ (NoDup (from_option d_messages [] (firestore w !! c)) → NoDup (d_messages d2))
    ∧ d_messageCount d2 = d_messageCount d1 + Z.of_nat (length msgs)
    ∧ d_userId d2 = d_userId d1
    ∧ d_characterId d2 = d_characterId d1
    ∧ d_createdAt d2 = d_createdAt d1
    ∧ d_lastMessage d2 = d_lastMessage d1
    ∧ d_updatedAt d2 = Some t'.
Proof.
  intros Hh Hm w1 w2. subst w1 w2. unfold exec.
  rewrite (saveConversation_ok c u ch msgs w) by done.
  assert (Hh' : firestore_healthy c (set_clock t' (saved c u ch msgs w))).
  { unfold firestore_healthy. cbn.
    by rewrite (proj1 (proj2 (proj2 (saved_frame c u ch msgs w)))). }
  rewrite saveConversation_ok by done. cbn.
  rewrite !saved_firestore. cbn. rewrite !saved_firestore, !lookup_insert_eq.
  eexists _, _. split; [done|]. split; [done|].
  unfold merge_update, save_update; cbn. rewrite saved_firestore, lookup_insert_eq. cbn.
  rewrite arrayUnion_idemp.
  repeat split; try done.
  - intros m. apply arrayUnion_adds.
  - intros Hnd. by apply arrayUnion_NoDup.
  - by destruct u.
  - by destruct ch.
Qed.

(** ** The persistence scheduler *)

Lemma filter_other_member (z : list (string * Z)) c :
  filter (λ e, e.1 = c) (filter (λ e, e.1 ≠ c) z) = [].
Proof.
  induction z as [|[m s] z IH]; [done|].
  cbn. case_decide; [|done]. cbn. by rewrite decide_False.
Qed.

Lemma zAdd_set_entries z s c : filter (λ e, e.1 = c) (zAdd_set z s c) = [(c, s)].
Proof.
  unfold zAdd_set. rewrite filter_app, filter_other_member. cbn.
  by rewrite decide_True.
Qed.

Lemma zAdd_set_NoDup z s c : NoDup z.*1 → NoDup (zAdd_set z s c).*1.
Proof.
  intros Hnd. unfold zAdd_set. rewrite fmap_app. apply NoDup_app. repeat split.
  - eapply sublist_NoDup; [exact Hnd|apply fmap_sublist, sublist_filter].
  - intros m Hm Hm'. apply list_elem_of_fmap in Hm as [[m' s'] [-> Hin]].
    apply list_elem_of_filter in Hin as [Hne _]. cbn in *. set_solver.
  - cbn. apply NoDup_singleton.
Qed.

(** The commands that append messages to a pending batch touch nothing but
    lists. *)
Lemma rPush_all_zsets key (msgs : list Message) r :
  zsets (foldl (λ r c, apply_write c r) r
           ((λ message, RPush key (JSON_stringify message)) <$> msgs)) = zsets r.
Proof. revert r. induction msgs as [|m msgs IH]; intros r; cbn; [done|]. by rewrite IH. Qed.

(** C4.  A call of the persistence scheduler whose Redis transaction is
    executed leaves exactly one entry for the conversation in the write
    queue, due at [now + delaySeconds * 1000] whatever the queue held before
    (a later due-time replaces an earlier one); and no call, executed or
    rejected, makes a member occur twice in the write queue. *)
Theorem queue_reschedules c u ch msgs w :
  let w' := exec (queueMessagesForBatchWrite c u ch msgs) w in
  (hd None (redis_faults w) = None →
     schedule_entries c w' = [(c, clock w + delaySeconds config * 1000)])
  ∧ (NoDup (write_queue w).*1 → NoDup (write_queue w').*1).
Proof.
  intros w'. subst w'. unfold schedule_entries, write_queue.
  destruct (redis_faults w) as [|[e|] rest] eqn:E.
  - unfold queueMessagesForBatchWrite. munfold. cbn. rewrite E. cbn.
    rewrite foldl_app. cbn. rewrite lookup_insert_eq, rPush_all_zsets. cbn.
    split; [intros _; apply zAdd_set_entries | apply zAdd_set_NoDup].
  - split; [done|]. intros Hnd.
    unfold queueMessagesForBatchWrite. munfold. cbn. rewrite E. cbn.
    match goal with |- context [saveConversation ?a ?b ?d ?m ?x] =>
      pose proof (saveConversation_redis a b d m x) as [Hr _] end.
    cbn in Hr. destruct (saveConversation _ _ _ _ _) as [r0 w0]. cbn in *.
    by rewrite Hr.
  - unfold queueMessagesForBatchWrite. munfold. cbn. rewrite E. cbn.
    rewrite foldl_app. cbn. rewrite lookup_insert_eq, rPush_all_zsets. cbn.
    split; [intros _; apply zAdd_set_entries | apply zAdd_set_NoDup].
Qed.

(** ** The batch writer *)

Lemma lRange_all {A} (l : list A) : lRange_slice l 0 (-1) = l.
Proof.
  unfold lRange_slice. cbn [Z.ltb Z.compare]. destruct l as [|x l]; [done|].
  set (len := Z.of_nat (length (x :: l))).
  assert (Hlen : Z.to_nat (len + -1 - 0 + 1) = length (x :: l)) by (subst len; lia).
  assert (0 < len) by (subst len; cbn [length]; lia).
  rewrite Hlen. clearbody len.
  rewrite (proj2 (Z.ltb_ge (len + -1) 0)) by lia.
  rewrite (proj2 (Z.leb_gt len 0)) by lia. cbn [orb Z.to_nat drop].
  by rewrite take_ge.
Qed.

(** [slice(-n)] keeps the last [n] entries when [0 < n]. *)
Lemma Array_slice_last {A} (l : list A) (n : Z) :
  0 < n → n ≤ Z.of_nat (length l) →
  ∃ older, l = older ++ Array_slice l (- n)
           ∧ Z.of_nat (length (Array_slice l (- n))) = n.
Proof.
  intros H0 Hn. unfold Array_slice.
  rewrite (proj2 (Z.ltb_lt (- n) 0)) by lia.
  exists (take (Z.to_nat (Z.max (Z.of_nat (length l) + - n) 0)) l). split.
  - by rewrite take_drop.
  - rewrite length_drop. lia.
Qed.

(** The keys of the batch writer are distinct from the write queue. *)
Lemma write_queue_not_pending c : buildBatchWriteKey PENDING_MESSAGES c ≠ WRITE_QUEUE.
Proof. cbv. discriminate. Qed.

Lemma write_queue_not_meta c : buildBatchWriteKey CONVERSATION_META c ≠ WRITE_QUEUE.
Proof. cbv. discriminate. Qed.

Lemma cleared_lists c r :
  lists (cleared c r) !! buildBatchWriteKey PENDING_MESSAGES c = None.
Proof. cbn. rewrite lookup_delete. case_decide; [done|]. apply lookup_delete_eq. Qed.


Lemma cleared_write_queue c r : zsets (cleared c r) !! WRITE_QUEUE = zsets r !! WRITE_QUEUE.
Proof.
  cbn. rewrite !lookup_delete_ne; [done|apply write_queue_not_pending|apply write_queue_not_meta].
Qed.

Lemma cleared_dlq c r : dlq (cleared c r) = dlq r.
Proof. done. Qed.

Lemma cleared_idemp c r : cleared c (cleared c r) = cleared c r.
Proof.
  unfold cleared. cbn. f_equal.
  all: apply map_eq; intros k; rewrite !lookup_delete; by repeat case_decide.
Qed.

Arguments cleared : simpl never.

(** A first attempt that succeeds is the result of [retry]. *)
Lemma retry_first {A} (fn : M A) retries w a w' :
  fn w = (Ok a, w') → retry fn retries w = (Ok a, w').
Proof. intros H. unfold retry. cbn. unfold try_catch. by rewrite H. Qed.

Lemma retry_loop_redis {A} (fn : M A) retries i n e :
  preserves redis_untouched fn → preserves redis_untouched (retry_loop fn retries i n e).
Proof.
  intros Hfn. revert i e. induction n as [|n IH]; intros i e; cbn.
  - preserves_body.
  - preserves_body. apply IH.
Qed.

Lemma retry_redis {A} (fn : M A) retries :
  preserves redis_untouched fn → preserves redis_untouched (retry fn retries).
Proof. apply retry_loop_redis. Qed.

(** What a flush does when the pending batch is empty. *)
Lemma writeConversationBatch_empty c w :
  redis_faults w = [] → pending_batch c w = [] →
  ∃ w', writeConversationBatch c w = (Ok tt, w')
        ∧ redis w' = cleared c (redis w)
        ∧ redis_faults w' = []
        ∧ firestore w' = firestore w
        ∧ firestore_faults w' = firestore_faults w
        ∧ clock w' = clock w
        ∧ trace w' = trace w
            ++ [RedisCmd "lRange" (buildBatchWriteKey PENDING_MESSAGES c);
                RedisCmd "hGetAll" (buildBatchWriteKey CONVERSATION_META c);
                RedisCmd "exec" ""].
Proof.
  intros Hr Hp. unfold pending_batch in Hp.
  unfold writeConversationBatch, cleanupConversationKeys. munfold.
  repeat (simpl; rewrite ?Hr, ?Hp, ?lRange_all). trace_norm.
  eexists. split; [reflexivity|]. repeat split; try done. cbn. by trace_norm.
Qed.

(** What a flush does when the pending batch is not empty: the durable merge
    is retried, and then the batch is either cleared or dead-lettered. *)
Lemma writeConversationBatch_nonempty c w :
  redis_faults w = [] → pending_batch c w ≠ [] →
  writeConversationBatch c w =
  match flush_merge c w (before_merge c w) with
  | (Ok _, w1) => (Ok tt, flushed c w1)
  | (Throw e, w1) => (Ok tt, dead_lettered c e w1)
  end.
Proof.
  intros Hr Hp.
  unfold writeConversationBatch, handleFailedWrite, cleanupConversationKeys,
    flush_merge, before_merge, flush_entries, batch_metadata.
  destruct (pending_batch c w) as [|j js] eqn:Ep; [done|]. unfold pending_batch in Ep.
  munfold. repeat (simpl; rewrite ?Hr, ?Ep, ?lRange_all).
  destruct (maxMessagesPerBatch config <? _) eqn:Emax; simpl.
  all: match goal with |- context [retry ?fn ?n ?x] =>
         pose proof (retry_redis fn n (saveConversation_redis _ _ _ _) x) as [Hr1 Hr2];
         destruct (retry fn n x) as [[[]|e] w1] eqn:Er end; simpl in Hr1, Hr2.
  all: unfold flushed, dead_lettered, dead_letter_of, pending_batch, batch_metadata.
  all: repeat (simpl; rewrite ?Hr1, ?Hr2, ?Hr, ?Ep, ?lRange_all); done.
Qed.

Lemma before_merge_frame c w :
  redis (before_merge c w) = redis w
  ∧ redis_faults (before_merge c w) = redis_faults w
  ∧ firestore (before_merge c w) = firestore w
  ∧ firestore_faults (before_merge c w) = firestore_faults w
  ∧ clock (before_merge c w) = clock w.
Proof. unfold before_merge. by case_match. Qed.

(** With Redis healthy a flush returns, and it leaves the keys of the
    conversation cleared. *)
Lemma writeConversationBatch_healthy c w :
  redis_faults w = [] →
  ∃ w1 r, writeConversationBatch c w = (Ok tt, w1)
          ∧ redis_faults w1 = [] ∧ redis w1 = cleared c r.
Proof.
  intros Hr. destruct (decide (pending_batch c w = [])) as [Hp|Hp].
  - destruct (writeConversationBatch_empty c w Hr Hp) as (w1 & -> & H1 & H2 & _).
    by eexists _, _.
  - rewrite writeConversationBatch_nonempty by done.
    pose proof (retry_redis _ (retryAttempts config)
                  (saveConversation_redis c (batch_metadata c w !! "userId")
                     (batch_metadata c w !! "characterId")
                     (JSON_parse <$> flush_entries c w)) (before_merge c w)) as [H1 H2].
    fold (flush_merge c w) in H1, H2.
    destruct (flush_merge c w (before_merge c w)) as [[[]|e] w1]; simpl in H1, H2.
    + eexists _, _. split; [done|]. split; [|done]. simpl. rewrite H2.
      by rewrite (proj1 (proj2 (before_merge_frame c w))).
    + eexists _, _. split; [done|]. split; [|done]. simpl. rewrite H2.
      by rewrite (proj1 (proj2 (before_merge_frame c w))).
Qed.

(** C7.  With Redis healthy, a flush of a conversation whose pending batch is
    empty returns without an error, sends nothing to the durable store, and
    changes nothing but the keys of that conversation, which it deletes; the
    write queue and the dead-letter queue are as before.  In particular a
    second flush after any first flush is such a flush: it changes neither
    the durable store nor Redis. *)
Theorem flush_of_empty_batch c w :
  redis_faults w = [] →
  (pending_batch c w = [] →
     let w' := exec (writeConversationBatch c) w in
     outcome (writeConversationBatch c) w = Ok tt
     ∧ durable_ops (trace w') = durable_ops (trace w)
     ∧ firestore w' = firestore w
     ∧ redis w' = cleared c (redis w)
     ∧ write_queue w' = write_queue w
     ∧ dlq (redis w') = dlq (redis w))
  ∧ (let w1 := exec (writeConversationBatch c) w in
     let w2 := exec (writeConversationBatch c) w1 in
     outcome (writeConversationBatch c) w1 = Ok tt
     ∧ durable_ops (trace w2) = durable_ops (trace w1)
     ∧ firestore w2 = firestore w1
     ∧ redis w2 = redis w1).
Proof.
  intros Hr.
  assert (Hempty : ∀ w0, redis_faults w0 = [] → pending_batch c w0 = [] →
            outcome (writeConversationBatch c) w0 = Ok tt
            ∧ durable_ops (trace (exec (writeConversationBatch c) w0)) = durable_ops (trace w0)
            ∧ firestore (exec (writeConversationBatch c) w0) = firestore w0
            ∧ redis (exec (writeConversationBatch c) w0) = cleared c (redis w0)).
  { intros w0 Hr0 Hp0. unfold outcome, exec.
    destruct (writeConversationBatch_empty c w0 Hr0 Hp0)
      as (w1 & -> & H1 & H2 & H3 & H4 & H5 & H6). simpl.
    rewrite H6, durable_ops_app. simpl. by rewrite app_nil_r. }
  split.
  - intros Hp w'. subst w'. destruct (Hempty w Hr Hp) as (H1 & H2 & H3 & H4).
    repeat split; try done.
    + unfold write_queue. by rewrite H4, cleared_write_queue.
    + by rewrite H4.
  - intros w1' w2. subst w1' w2.
    destruct (writeConversationBatch_healthy c w Hr) as (w1 & r & Hrun & Hr1 & Hc1).
    assert (exec (writeConversationBatch c) w = w1) as -> by (unfold exec; by rewrite Hrun).
    assert (Hp1 : pending_batch c w1 = []).
    { unfold pending_batch. by rewrite Hc1, cleared_lists. }
    destruct (Hempty w1 Hr1 Hp1) as (H1 & H2 & H3 & H4).
    repeat split; try done. by rewrite H4, Hc1, cleared_idemp.
Qed.

Lemma arrayUnion_fresh arr es :
  NoDup es → (∀ x, x ∈ es → x ∉ arr) → arrayUnion arr es = arr ++ es.
Proof.
  revert arr. induction es as [|e es IH]; intros arr Hnd Hfresh; simpl.
  - by rewrite app_nil_r.
  - apply NoDup_cons in Hnd as [He Hnd].
    rewrite decide_False by (apply Hfresh; set_solver).
    rewrite IH, <- app_assoc; [done|done|].
    intros x Hx. rewrite elem_of_app, list_elem_of_singleton.
    intros [Hin| ->]; [|done]. eapply Hfresh; [|done]. set_solver.
Qed.

Global Instance JSON_parse_inj : Inj (=) (=) JSON_parse.
Proof. intros [m1] [m2]. simpl. by intros ->. Qed.

Lemma save_update_ext c u ch msgs w1 w2 :
  clock w1 = clock w2 → firestore w1 !! c = firestore w2 !! c →
  save_update c u ch msgs w1 = save_update c u ch msgs w2.
Proof. unfold save_update. by intros -> ->. Qed.

Lemma flushed_frame c w1 :
  firestore (flushed c w1) = firestore w1
  ∧ redis (flushed c w1) = cleared c (redis w1)
  ∧ redis_faults (flushed c w1) = redis_faults w1
  ∧ trace (flushed c w1) =
      trace w1 ++ [RedisCmd "exec" ""; Log Info "Batch write successful"].
Proof. unfold flushed. cbn. by trace_norm. Qed.

(** A flush whose durable merge is accepted at the first attempt. *)
Lemma writeConversationBatch_accepted c w :
  redis_faults w = [] → firestore_healthy c w → flush_entries c w ≠ [] →
  writeConversationBatch c w =
  (Ok tt, flushed c (saved c (batch_metadata c w !! "userId")
                       (batch_metadata c w !! "characterId")
                       (JSON_parse <$> flush_entries c w) (before_merge c w))).
Proof.
  intros Hr Hh Hne.
  assert (Hp : pending_batch c w ≠ []).
  { intros Hp. apply Hne. unfold flush_entries. rewrite Hp. simpl.
    case_match; [|done]. unfold Array_slice. apply drop_nil. }
  rewrite writeConversationBatch_nonempty by done.
  unfold flush_merge. erewrite retry_first; [done|].
  apply saveConversation_ok.
  - unfold firestore_healthy.
    by rewrite (proj1 (proj2 (proj2 (proj2 (before_merge_frame c w))))).
  - intros Hnil. apply fmap_nil_inv in Hnil. done.
Qed.

Arguments size_warnings : simpl never.

(** X1.  When the configured maximum is at least one and the pending batch
    holds more messages than that, a flush with the stores healthy hands
    exactly the most recent [maxMessagesPerBatch] messages of the batch to
    one durable merge, logs the truncation warning once (and the warning
    about the size of the document when the merge is into a document that
    is large), and clears the batch.  Into a new document, from a batch
    without repetition, these are exactly the messages persisted. *)
Theorem oversized_batch_is_truncated c w :
  0 < maxMessagesPerBatch config →
  maxMessagesPerBatch config < Z.of_nat (length (pending_batch c w)) →
  redis_faults w = [] →
  firestore_healthy c w →
  let w' := exec (writeConversationBatch c) w in
  let meta := batch_metadata c w in
  ∃ older kept,
    pending_batch c w = older ++ kept
    ∧ Z.of_nat (length kept) = maxMessagesPerBatch config
    ∧ firestore w' !! c =
        Some (merge_update (firestore w !! c)
                (save_update c (meta !! "userId") (meta !! "characterId")
                   (JSON_parse <$> kept) w))
    ∧ (firestore w !! c = None → NoDup kept →
         ∃ d, firestore w' !! c = Some d
              ∧ d_messages d = JSON_parse <$> kept
              ∧ d_messageCount d = maxMessagesPerBatch config)
    ∧ warnings (trace w') =
        warnings (trace w) ++ ["Batch size exceeded, truncating"]
        ++ size_warnings c (JSON_parse <$> kept) w
    ∧ durable_ops (trace w') = durable_ops (trace w) ++ [FirestoreGet c; FirestoreSet c]
    ∧ pending_batch c w' = [].
Proof.
  intros Hpos Hlen Hr Hh w' meta. subst w' meta.
  destruct (Array_slice_last (pending_batch c w) (maxMessagesPerBatch config))
    as (older & Holder & Hkept); [done|lia|].
  set (kept := Array_slice (pending_batch c w) (- maxMessagesPerBatch config)) in *.
  assert (Hfe : flush_entries c w = kept).
  { unfold flush_entries. by rewrite (proj2 (Z.ltb_lt _ _) Hlen). }
  assert (Hne : flush_entries c w ≠ []).
  { rewrite Hfe. intros Hnil. rewrite Hnil in Hkept. simpl in Hkept. lia. }
  exists older, kept. unfold exec.
  rewrite writeConversationBatch_accepted by done. rewrite Hfe. cbn [snd].
  destruct (before_merge_frame c w) as (Hb1 & Hb2 & Hb3 & Hb4 & Hb5).
  assert (Hdoc : firestore (flushed c (saved c (batch_metadata c w !! "userId")
                    (batch_metadata c w !! "characterId") (JSON_parse <$> kept)
                    (before_merge c w))) !! c =
                 Some (merge_update (firestore w !! c)
                         (save_update c (batch_metadata c w !! "userId")
                            (batch_metadata c w !! "characterId")
                            (JSON_parse <$> kept) w))).
  { rewrite (proj1 (flushed_frame _ _)), saved_firestore, lookup_insert_eq, Hb3.
    by rewrite (save_update_ext _ _ _ _ (before_merge c w) w) by congruence. }
  split; [done|]. split; [done|]. split; [exact Hdoc|]. split; [|split; [|split]].
  - intros Hnew Hnd. eexists. split; [exact Hdoc|]. rewrite Hnew.
    unfold merge_update, save_update. simpl. split.
    + rewrite arrayUnion_fresh; [done| |set_solver]. by apply (NoDup_fmap_2 _).
    + rewrite length_fmap. lia.
  - rewrite (proj2 (proj2 (proj2 (flushed_frame _ _)))).
    destruct (saved_trace c (batch_metadata c w !! "userId")
      (batch_metadata c w !! "characterId") (JSON_parse <$> kept) (before_merge c w))
      as (t & -> & _ & _ & _ & _ & Hw).
    assert (Hsz : size_warnings c (JSON_parse <$> kept) (before_merge c w)
                  = size_warnings c (JSON_parse <$> kept) w)
      by (unfold size_warnings; by rewrite Hb3).
    rewrite Hsz in Hw.
    unfold before_merge. rewrite (proj2 (Z.ltb_lt _ _) Hlen). cbn.
    rewrite !warnings_app, Hw. cbn. by rewrite !app_nil_r, <- !app_assoc.
  - rewrite (proj2 (proj2 (proj2 (flushed_frame _ _)))).
    destruct (saved_trace c (batch_metadata c w !! "userId")
      (batch_metadata c w !! "characterId") (JSON_parse <$> kept) (before_merge c w))
      as (t & -> & Hd & _).
    unfold before_merge. rewrite (proj2 (Z.ltb_lt _ _) Hlen). cbn.
    rewrite !durable_ops_app, Hd. cbn. by rewrite !app_nil_r.
  - unfold pending_batch. rewrite (proj1 (proj2 (flushed_frame _ _))).
    by rewrite cleared_lists.
Qed.

(** ** Dead-lettering *)




(** [frame c]: a computation leaves what the batch writer holds about
    conversation [c] as it is, and does not make Redis fail. *)
Definition frame (c : string) (w w' : World) : Prop :=
  slice c w' = slice c w ∧ (redis_faults w = [] → redis_faults w' = []).

Global Instance frame_preorder c : PreOrder (frame c).
Proof.
  split; [by intros w|]. intros w1 w2 w3 [H1 H1'] [H2 H2']. split; [congruence|auto].
Qed.

































(** ** The worker over healthy stores *)

Global Instance quiet_step_preorder : PreOrder quiet_step.
Proof.
  split; [by intros w|]. unfold quiet_step. intros w1 w2 w3 H1 H2.
  destruct_and!. repeat split; congruence.
Qed.

Lemma pushMessage_healthy c m w :
  redis_faults w = [] →
  ∃ w', pushMessage c m w = (Ok tt, w') ∧ quiet_step w w'.
Proof.
  intros Hr. unfold pushMessage. munfold. repeat (simpl; rewrite ?Hr).
  eexists. split; [reflexivity|]. unfold quiet_step. simpl.
  rewrite !broadcasts_app. simpl. by rewrite !app_nil_r.
Qed.

Lemma for_each_push_healthy c l w :
  redis_faults w = [] →
  ∃ w', for_each l (λ message, pushMessage c message) w = (Ok tt, w') ∧ quiet_step w w'.
Proof.
  revert w. induction l as [|m l IH]; intros w Hr; simpl.
  - by eexists.
  - munfold. destruct (pushMessage_healthy c m w Hr) as (w1 & -> & Hq1).
    destruct (IH w1) as (w2 & -> & Hq2); [destruct Hq1; congruence|].
    eexists. split; [done|]. by etrans.
Qed.

(** Over healthy stores the history is read: from the cache, or from the
    document, which then refills the cache. *)
Lemma getMessages_healthy c limit w :
  redis_faults w = [] → firestore_healthy c w →
  ∃ history w', getMessages c limit w = (Ok history, w') ∧ quiet_step w w'.
Proof.
  intros Hr Hh. unfold firestore_healthy in Hh.
  unfold getMessages, getMessageList. munfold. repeat (simpl; rewrite ?Hr).
  destruct (0 <? Z.of_nat (length _)) eqn:Ehit.
  - eexists _, _. split; [reflexivity|]. unfold quiet_step. simpl.
    rewrite !broadcasts_app. simpl. by rewrite !app_nil_r.
  - simpl. rewrite Hh. simpl.
    destruct (firestore w !! c) as [d|] eqn:Ed; simpl.
    all: try match goal with |- context [for_each ?l _ ?x] =>
           destruct (for_each_push_healthy c l x) as (w1 & -> & Hq); [done|] end.
    all: simpl; eexists _, _; (split; [reflexivity|]).
    all: unfold quiet_step in *; simpl in *; destruct_and?;
         rewrite ?broadcasts_app in *; simpl in *; rewrite ?app_nil_r in *.
    all: repeat split; congruence.
Qed.

(** Over healthy stores the character provider resolves a character that is
    stored: from the cache, or from the document, which it then caches. *)
Lemma getCharacterById_healthy characterId character w :
  characters w !! characterId = Some character →
  redis_faults w = [] →
  firestore_healthy ("characters/" +:+ characterId) w →
  ∃ resolved w', getCharacterById characterId w = (Ok (Some resolved), w')
                 ∧ quiet_step w w'.
Proof.
  intros Hch Hr Hh. unfold firestore_healthy in Hh.
  unfold getCharacterById, getCacheValue, setCacheValue. munfold.
  repeat (simpl; rewrite ?Hr).
  destruct (strings (redis w) !! _) as [cached|] eqn:Ec; simpl.
  { eexists _, _. split; [reflexivity|]. unfold quiet_step. simpl.
    rewrite !broadcasts_app. simpl. by rewrite !app_nil_r. }
  rewrite Hh. simpl. rewrite Hch. simpl.
  destruct (decide (ttl_character config = 0)) as [Ht|Ht]; simpl; rewrite ?Hr; simpl.
  2: destruct (ttl_character config <=? 0); simpl.
  all: eexists _, _; (split; [reflexivity|]); unfold quiet_step; simpl.
  all: rewrite !broadcasts_app; simpl; by rewrite !app_nil_r.
Qed.

Lemma queueMessagesForBatchWrite_healthy c u ch msgs w :
  redis_faults w = [] →
  ∃ w', queueMessagesForBatchWrite c u ch msgs w = (Ok tt, w')
        ∧ broadcasts (trace w') = broadcasts (trace w).
Proof.
  intros Hr. unfold queueMessagesForBatchWrite. munfold. repeat (simpl; rewrite ?Hr).
  eexists. split; [reflexivity|]. simpl. rewrite !broadcasts_app. simpl.
  by rewrite !app_nil_r.
Qed.

Lemma processMessage_healthy data io w character g gs text :
  characters w !! j_characterId data = Some character →
  redis_faults w = [] →
  firestore_healthy ("characters/" +:+ j_characterId data) w →
  firestore_healthy (j_conversationId data) w →
  generator w = g :: gs →
  g_result g = inl text →
  let ai := response_message data text g w in
  ∃ w', processMessage data io w = (Ok (m_id ai), w')
        ∧ broadcasts (trace w') =
            broadcasts (trace w)
            ++ (if io then [(room_of (j_conversationId data), ai)] else [])
        ∧ (batch_enabled config = false →
             ∃ d, firestore w' !! j_conversationId data = Some d
                  ∧ j_userMessage data ∈ d_messages d ∧ ai ∈ d_messages d).
Proof.
  intros Hch Hr Hhc Hh Hg Htext ai.
  unfold processMessage. munfold. simpl.
  match goal with |- context [getCharacterById ?c ?x] =>
    destruct (getCharacterById_healthy c character x) as (resolved & w0 & -> & Hq0);
      [done|done|done|] end.
  unfold quiet_step in Hq0. simpl in Hq0.
  destruct Hq0 as (Hq0r & Hq0f & Hq0ff & Hq0c & Hq0g & Hq0n & Hq0b).
  rewrite !broadcasts_app in Hq0b. simpl in Hq0b. rewrite !app_nil_r in Hq0b.
  simpl.
  match goal with |- context [getMessages ?c ?l ?x] =>
    destruct (getMessages_healthy c l x) as (history & w1 & -> & Hq1);
      [simpl; congruence|unfold firestore_healthy in *; simpl; congruence|] end.
  unfold quiet_step in Hq1. simpl in Hq1.
  destruct Hq1 as (Hq1r & Hq1f & Hq1ff & Hq1c & Hq1g & Hq1n & Hq1b).
  rewrite !broadcasts_app in Hq1b. simpl in Hq1b. rewrite !app_nil_r in Hq1b.
  rewrite Hq0r in Hq1r. rewrite Hq0f in Hq1f. rewrite Hq0ff in Hq1ff.
  rewrite Hq0c in Hq1c. rewrite Hq0g in Hq1g. rewrite Hq0n in Hq1n. rewrite Hq0b in Hq1b.
  destruct io; simpl; rewrite Hq1g, Hg; simpl; rewrite Htext; simpl.
  all: match goal with |- context [pushMessage ?c ?m ?x] =>
         destruct (pushMessage_healthy c m x) as (w2 & -> & Hq2);
           [simpl; congruence|] end.
  all: unfold quiet_step in Hq2; simpl in Hq2;
       destruct Hq2 as (Hq2r & Hq2f & Hq2ff & Hq2c & Hq2g & Hq2n & Hq2b).
  all: rewrite ?broadcasts_app in Hq2b; simpl in Hq2b; rewrite ?app_nil_r in Hq2b.
  all: simpl; rewrite Hq1c, Hq1n; fold ai.
  all: destruct (batch_enabled config) eqn:Eb.
  all: try match goal with |- context [queueMessagesForBatchWrite ?c ?u ?ch ?m ?x] =>
         destruct (queueMessagesForBatchWrite_healthy c u ch m x) as (w3 & -> & Hq3);
           [simpl; congruence|] end.
  all: try (rewrite saveConversation_ok;
            [|unfold firestore_healthy in *; simpl; congruence|done]).
  all: simpl; eexists; (split; [reflexivity|]).
  all: simpl; rewrite ?broadcasts_app; simpl; rewrite ?app_nil_r.
  all: split; [|intros ?; try done].
  all: rewrite ?Hq3; simpl; rewrite ?broadcasts_app; simpl; rewrite ?app_nil_r.
  all: try (destruct (firestore w2 !! j_conversationId data) eqn:Ed;
            [destruct (800000 <? _)|]).
  all: simpl; rewrite ?broadcasts_app; simpl; rewrite ?app_nil_r, ?Hq2b, ?Hq1b; try done.
  all: rewrite lookup_insert_eq; eexists; (split; [reflexivity|]).
  all: split; apply merge_update_adds; simpl; set_solver.
Qed.

(** ** Falling back to the immediate write *)


(** ** The generation job *)

(** The clock never goes back during a computation. *)
Definition clock_le (w w' : World) : Prop := clock w ≤ clock w'.

Global Instance clock_le_preorder : PreOrder clock_le.
Proof. split; unfold clock_le; [intros w|intros w1 w2 w3]; lia. Qed.

Ltac clock_prim :=
  let w := fresh "w" in
  intros w; munfold; unfold clock_le; repeat case_match; simplify_eq/=; lia.

Ltac clock_body := repeat preserves_step; try clock_prim.

Lemma clock_pushMessage c m : preserves clock_le (pushMessage c m).
Proof. unfold pushMessage. clock_body. Qed.

Lemma clock_saveConversation c u ch msgs : preserves clock_le (saveConversation c u ch msgs).
Proof. unfold saveConversation. clock_body. Qed.

Lemma clock_getMessages c limit : preserves clock_le (getMessages c limit).
Proof.
  unfold getMessages, getMessageList. clock_body. apply clock_pushMessage.
Qed.

Lemma clock_getCharacterById characterId : preserves clock_le (getCharacterById characterId).
Proof. unfold getCharacterById, getCacheValue, setCacheValue. clock_body. Qed.

Lemma clock_processMessage data io : preserves clock_le (processMessage data io).
Proof.
  unfold processMessage, queueMessagesForBatchWrite. clock_body.
  all: first [apply clock_getMessages | apply clock_pushMessage
             | apply clock_saveConversation | apply clock_getCharacterById].
Qed.

Lemma try_catch_throws {A} (m : M A) (h : string → M A) w e w' :
  try_catch m h w = (Throw e, w') →
  ∃ e1 w1, m w = (Throw e1, w1) ∧ h e1 w1 = (Throw e, w').
Proof.
  unfold try_catch. destruct (m w) as [[a|e1] w1]; [done|]. intros H. by eexists _, _.
Qed.

(** A failed attempt ends with the broadcast of a system error message in
    the room of the conversation. *)
Lemma processMessage_failure data w e w' :
  processMessage data true w = (Throw e, w') →
  ∃ t m, trace w' = t ++ [EmitMessage (room_of (j_conversationId data)) m
                            (j_conversationId data)]
         ∧ m_sender m = "system" ∧ m_type m = "error"
         ∧ m_conversationId m = j_conversationId data.
Proof.
  unfold processMessage. intros H.
  apply try_catch_throws in H as (e1 & w1 & _ & H).
  revert H. munfold. simpl. intros H. simplify_eq. simpl. eexists _, _. done.
Qed.

Lemma run_job_from_S n k data io :
  run_job_from (S n) k data io =
  try_catch
    (messageId ← processMessage data io;
     mret (Completed messageId (S k)))
    (λ error,
       match n with
       | O => mret (Failed error (S k))
       | S _ =>
           sleep (job_backoff_delay * 2 ^ Z.of_nat k) ;;
           run_job_from n (S k) data io
       end).
Proof. done. Qed.

(** One attempt of a job under the retry loop. *)
Lemma run_job_from_step n k data io w :
  run_job_from (S n) k data io w =
  match processMessage data io w with
  | (Ok messageId, w1) => (Ok (Completed messageId (S k)), w1)
  | (Throw e, w1) =>
      match n with
      | O => (Ok (Failed e (S k)), w1)
      | S _ =>
          run_job_from n (S k) data io
            (exec (sleep (job_backoff_delay * 2 ^ Z.of_nat k)) w1)
      end
  end.
Proof.
  rewrite run_job_from_S.
  unfold try_catch, mbind, M_bind, bind, mret, M_ret, ret, exec, sleep, modify.
  destruct (processMessage data io w) as [[messageId|e] w1]; [done|]. by destruct n.
Qed.

(** The worker hands no job to the queue. *)
Lemma jobs_pushMessage c m : preserves (unchanged jobs) (pushMessage c m).
Proof. unfold pushMessage. unchanged_body. Qed.

Lemma jobs_saveConversation c u ch msgs :
  preserves (unchanged jobs) (saveConversation c u ch msgs).
Proof. unfold saveConversation. unchanged_body. Qed.

Lemma jobs_getMessages c limit : preserves (unchanged jobs) (getMessages c limit).
Proof.
  unfold getMessages, getMessageList. unchanged_body. apply jobs_pushMessage.
Qed.

Lemma jobs_getCharacterById characterId :
  preserves (unchanged jobs) (getCharacterById characterId).
Proof. unfold getCharacterById, getCacheValue, setCacheValue. unchanged_body. Qed.

Lemma jobs_processMessage data io : preserves (unchanged jobs) (processMessage data io).
Proof.
  unfold processMessage, queueMessagesForBatchWrite. unchanged_body.
  all: first [apply jobs_getMessages | apply jobs_pushMessage
             | apply jobs_saveConversation | apply jobs_getCharacterById].
Qed.

Lemma jobs_run_job_from n k data io :
  preserves (unchanged jobs) (run_job_from n k data io).
Proof.
  revert k. induction n as [|n IH]; intros k; cbn [run_job_from].
  - unchanged_body.
  - unchanged_body; first [apply jobs_processMessage | apply IH].
Qed.

(** C6.  The run of a generation job under the retry policy of the queue.
    A job whose attempt succeeds is completed with the result of that
    attempt.  A job whose attempt fails is run again, 2000 ms after the first
    failure and 4000 ms after the second; when the third attempt fails too
    the job is marked failed with the error of that attempt, after three
    attempts, and nothing more is run.  With a socket server attached, every
    failed attempt, the last one included, ends with the broadcast of a
    message of sender ['system'] and type ['error'] in the room of the
    conversation.  The run hands no job to the queue: a failed job is not
    requeued. *)
Theorem generation_job_retry_policy data io w :
  (∀ messageId w1,
     processMessage data io w = (Ok messageId, w1) →
     run_job data io w = (Ok (Completed messageId 1), w1))
  ∧ (∀ e1 w1,
       processMessage data io w = (Throw e1, w1) →
       let w1' := exec (sleep 2000) w1 in
       (∀ messageId w2,
          processMessage data io w1' = (Ok messageId, w2) →
          run_job data io w = (Ok (Completed messageId 2), w2))
       ∧ (∀ e2 w2,
            processMessage data io w1' = (Throw e2, w2) →
            let w2' := exec (sleep 4000) w2 in
            (∀ messageId w3,
               processMessage data io w2' = (Ok messageId, w3) →
               run_job data io w = (Ok (Completed messageId 3), w3))
            ∧ (∀ e3 w3,
                 processMessage data io w2' = (Throw e3, w3) →
                 run_job data io w = (Ok (Failed e3 3), w3))))
  ∧ (∀ w0 e w',
       processMessage data true w0 = (Throw e, w') →
       ∃ t m, trace w' = t ++ [EmitMessage (room_of (j_conversationId data)) m
                                 (j_conversationId data)]
              ∧ m_sender m = "system" ∧ m_type m = "error"
              ∧ m_conversationId m = j_conversationId data)
  ∧ enqueued (trace (exec (run_job data io) w)) = enqueued (trace w).
Proof.
  unfold run_job, job_attempts. split; [|split; [|split]].
  - intros messageId w1 H1. by rewrite run_job_from_step, H1.
  - intros e1 w1 H1. rewrite run_job_from_step, H1.
    change (job_backoff_delay * 2 ^ Z.of_nat 0) with 2000. split.
    + intros messageId w2 H2. by rewrite run_job_from_step, H2.
    + intros e2 w2 H2. rewrite run_job_from_step, H2.
      change (job_backoff_delay * 2 ^ Z.of_nat 1) with 4000. split.
      * intros messageId w3 H3. by rewrite run_job_from_step, H3.
      * intros e3 w3 H3. by rewrite run_job_from_step, H3.
  - intros w0 e w' Hrun. by apply (processMessage_failure data w0 e w').
  - apply (jobs_run_job_from 3 0 data io w).
Qed.

(** ** Ordering of a message and its response *)

Lemma insert_by_timestamp_elem m l x : x ∈ insert_by_timestamp m l ↔ x = m ∨ x ∈ l.
Proof. induction l as [|y l IH]; simpl; [set_solver|]. case_match; set_solver. Qed.

Lemma sort_by_timestamp_elem l x : x ∈ sort_by_timestamp l ↔ x ∈ l.
Proof.
  induction l as [|y l IH]; simpl; [done|]. rewrite insert_by_timestamp_elem. set_solver.
Qed.

Lemma insert_by_timestamp_ascending m l : ascending l → ascending (insert_by_timestamp m l).
Proof.
  unfold ascending. induction l as [|y l IH]; intros Hl; simpl.
  - repeat constructor.
  - apply StronglySorted_cons in Hl as [Hy Hl].
    destruct (m_timestamp m <=? m_timestamp y) eqn:E.
    + apply Z.leb_le in E. apply StronglySorted_cons. split.
      * constructor; [done|]. eapply Forall_impl; [exact Hy|]. simpl. intros; lia.
      * by apply StronglySorted_cons.
    + apply Z.leb_gt in E. apply StronglySorted_cons. split; [|by apply IH].
      apply Forall_forall. intros x Hx. apply insert_by_timestamp_elem in Hx as [->|Hx].
      * lia.
      * by eapply Forall_forall in Hy.
Qed.

Lemma sort_by_timestamp_ascending l : ascending (sort_by_timestamp l).
Proof.
  induction l as [|y l IH]; simpl; [constructor|]. by apply insert_by_timestamp_ascending.
Qed.

(** In an ascending list, an entry with a smaller timestamp comes first. *)
Lemma ascending_precedes l (u a : Message) i j :
  ascending l → m_timestamp u < m_timestamp a →
  l !! i = Some a → l !! j = Some u → (j < i)%nat.
Proof.
  intros Hl Hlt Hi Hj. destruct (decide (j < i)%nat) as [|Hge]; [done|]. exfalso.
  destruct (decide (i = j)) as [->|Hne]; [simplify_eq; lia|].
  assert (Hij : (i < j)%nat) by lia.
  rewrite <- (take_drop j l) in Hl.
  assert (m_timestamp a ≤ m_timestamp u); [|lia].
  eapply (StronglySorted_app_1_elem_of _ _ _ a u Hl).
  - apply list_elem_of_lookup. exists i. by rewrite lookup_take_lt.
  - apply list_elem_of_lookup. exists 0%nat. rewrite lookup_drop. by rewrite Nat.add_0_r.
Qed.

(** What the socket handler does on a well-formed event over a healthy Redis:
    the message is cached, then broadcast, then acknowledged, and only then
    is the job handed to the queue. *)
Lemma on_message_send_healthy userId data w :
  s_characterId data ≠ "" → s_content data ≠ "" → redis_faults w = [] →
  let u := user_message userId data w in
  let conversationId := userId +:+ "_" +:+ s_characterId data in
  let key := buildCacheKey "messages" [conversationId] in
  ∃ w', on_message_send userId data w = (Ok tt, w')
        ∧ trace w' =
            trace w
            ++ [Log Info "Processing message";
                Log Debug "Saving user message to cache";
                RedisCmd "lPush" key; RedisCmd "expire" key;
                Log Debug "Message pushed to cache";
                Log Debug "User message saved to cache";
                EmitMessage (room_of conversationId) u conversationId;
                Callback (AckSuccess u conversationId);
                Log Debug "Queueing AI response job";
                RedisCmd "bullmq:add" "message-processing";
                Enqueue (job_of userId data w);
                Log Info "Message job added to queue";
                Log Debug "AI response job queued successfully"]
        ∧ lists (redis w') !! key =
            Some (JSON_stringify u :: default [] (lists (redis w) !! key)).
Proof.
  intros Hc Hk Hr u conversationId key. subst u conversationId key.
  unfold on_message_send, pushMessage, addMessageJob.
  rewrite (bool_decide_eq_false_2 _ Hc), (bool_decide_eq_false_2 _ Hk).
  munfold. repeat (simpl; rewrite ?Hr).
  eexists. split; [reflexivity|]. simpl. split; [by trace_norm|].
  by rewrite lookup_insert_eq.
Qed.

(** The clock is not set back by the pipeline. *)
Lemma clock_sleep ms : 0 ≤ ms → preserves clock_le (sleep ms).
Proof. intros Hms w. unfold clock_le. simpl. lia. Qed.

Lemma clock_on_message_send userId data :
  preserves clock_le (on_message_send userId data).
Proof.
  unfold on_message_send, addMessageJob. clock_body. apply clock_pushMessage.
Qed.

Lemma clock_run_job_from n k data io : preserves clock_le (run_job_from n k data io).
Proof.
  revert k. induction n as [|n IH]; intros k; cbn [run_job_from].
  - clock_body.
  - clock_body; first [apply clock_processMessage | apply IH | idtac].
    apply clock_sleep. unfold job_backoff_delay. apply Z.mul_nonneg_nonneg; [lia|].
    apply Z.pow_nonneg. lia.
Qed.

Lemma clock_retry_loop {A} (fn : M A) retries i n e :
  preserves clock_le fn → preserves clock_le (retry_loop fn retries i n e).
Proof.
  intros Hfn. revert i e. induction n as [|n IH]; intros i e; cbn [retry_loop].
  - clock_body.
  - clock_body; first [exact Hfn | apply IH].
Qed.

Lemma clock_writeConversationBatch c : preserves clock_le (writeConversationBatch c).
Proof.
  unfold writeConversationBatch, handleFailedWrite, cleanupConversationKeys. clock_body.
  apply clock_retry_loop, clock_saveConversation.
Qed.

Lemma clock_process_due l acc : preserves clock_le (process_due l acc).
Proof.
  revert acc. induction l as [|c l IH]; intros acc; cbn [process_due].
  - clock_body.
  - unfold process_conversation. clock_body; first [apply clock_writeConversationBatch | apply IH].
Qed.

Lemma clock_processWriteQueue : preserves clock_le processWriteQueue.
Proof.
  unfold processWriteQueue. clock_body; first [apply clock_process_due | idtac].
  unfold clock_le. simpl. lia.
Qed.

Lemma clock_perform a w : clock w ≤ clock (perform a w).
Proof.
  destruct a as [userId data|data io| |c limit|ms]; unfold perform.
  - apply clock_on_message_send.
  - apply clock_run_job_from.
  - apply clock_processWriteQueue.
  - apply clock_getMessages.
  - simpl. lia.
Qed.

Lemma clock_after activities w : clock w ≤ clock (after activities w).
Proof.
  unfold after. revert w. induction activities as [|a l IH]; intros w; simpl; [lia|].
  etrans; [apply (clock_perform a)|apply IH].
Qed.

(** ** Reading the Hot Store *)

Lemma lRange_recent {A} (l : list A) (limit : Z) :
  0 < limit → lRange_slice l 0 (limit - 1) = take (Z.to_nat limit) l.
Proof.
  intros Hpos. unfold lRange_slice. cbn [Z.ltb Z.compare].
  rewrite (proj2 (Z.ltb_ge (limit - 1) 0)) by lia.
  destruct l as [|x l].
  { cbn [length Z.of_nat Z.leb Z.compare]. by rewrite orb_true_r, take_nil. }
  set (len := Z.of_nat (length (x :: l))).
  assert (Hlen : Z.of_nat (length (x :: l)) = len) by done.
  assert (0 < len) by (subst len; cbn [length]; lia).
  clearbody len.
  rewrite (proj2 (Z.ltb_ge _ 0)) by lia.
  rewrite (proj2 (Z.leb_gt len 0)) by lia. cbn [orb Z.to_nat drop].
  replace (Z.to_nat (Z.min (limit - 1) (len - 1) - 0 + 1))
    with (Z.to_nat (Z.min limit len)) by lia.
  destruct (decide (limit ≤ len)).
  - by rewrite Z.min_l.
  - rewrite Z.min_r by lia. rewrite !take_ge; [done| |]; simpl in *; lia.
Qed.

Lemma pushMessage_head c m w :
  redis_faults w = [] →
  lists (redis (exec (pushMessage c m) w)) !! buildCacheKey "messages" [c] =
  Some (JSON_stringify m
        :: default [] (lists (redis w) !! buildCacheKey "messages" [c])).
Proof.
  intros Hr. unfold pushMessage. munfold. repeat (simpl; rewrite ?Hr).
  by rewrite lookup_insert_eq.
Qed.

Lemma getMessageList_healthy c limit w :
  redis_faults w = [] → 0 < limit →
  getMessageList c limit w =
  (Ok (reverse (take (Z.to_nat limit)
                  (JSON_parse <$> default [] (lists (redis w) !! buildCacheKey "messages" [c])))),
   add_trace (RedisCmd "lRange" (buildCacheKey "messages" [c])) w).
Proof.
  intros Hr Hpos. unfold getMessageList. munfold. repeat (simpl; rewrite ?Hr).
  rewrite lRange_recent by done. by rewrite fmap_take.
Qed.

(** C8 (as amended).  Over a healthy Redis and for a limit of at least one,
    the Hot Store read returns the messages appended last, at most [limit] of
    them, in the order in which they were appended (the one appended first
    comes first), and the empty list when nothing is cached.  An append puts
    its message at the head of the cached list.  The read does not sort: its
    answer is ascending in timestamps when the messages were appended in
    ascending order of timestamps; and the Firebase service hands a non-empty
    answer of the cache on as it is. *)
Theorem hot_store_recent c limit w :
  redis_faults w = [] →
  0 < limit →
  let cached :=
    JSON_parse <$> default [] (lists (redis w) !! buildCacheKey "messages" [c]) in
  let recent := reverse (take (Z.to_nat limit) cached) in
  outcome (getMessageList c limit) w = Ok recent
  ∧ Z.of_nat (length recent) ≤ limit
  ∧ (cached = [] → recent = [])
  ∧ (ascending (reverse cached) → ascending recent)
  ∧ (recent ≠ [] → outcome (getMessages c limit) w = Ok recent)
  ∧ (∀ m, lists (redis (exec (pushMessage c m) w)) !! buildCacheKey "messages" [c] =
          Some (JSON_stringify m
                :: default [] (lists (redis w) !! buildCacheKey "messages" [c]))).
Proof.
  intros Hr Hpos cached recent.
  split; [|split; [|split; [|split; [|split]]]].
  - unfold outcome. by rewrite getMessageList_healthy.
  - subst recent. rewrite length_reverse, length_take. lia.
  - subst recent. intros ->. by rewrite take_nil.
  - subst recent. unfold ascending. intros Hasc.
    rewrite <- (take_drop (Z.to_nat limit) cached), reverse_app in Hasc.
    by apply StronglySorted_app_1_r in Hasc.
  - intros Hne. unfold outcome, getMessages.
    unfold try_catch, mbind, M_bind, bind, logger, modify.
    rewrite getMessageList_healthy by done. cbn [redis add_trace].
    fold cached. fold recent. destruct recent as [|x recent']; [done|]. done.
  - intros m. by apply pushMessage_head.
Qed.

(** ** Reading the history *)

Lemma Array_slice_length {A} (l : list A) (n : Z) :
  0 < n → Z.of_nat (length (Array_slice l (- n))) ≤ n.
Proof.
  intros Hn. unfold Array_slice. rewrite (proj2 (Z.ltb_lt (- n) 0)) by lia.
  rewrite length_drop. lia.
Qed.

Lemma Array_slice_nonempty {A} (l : list A) (n : Z) :
  0 < n → l ≠ [] → Array_slice l (- n) ≠ [].
Proof.
  intros Hn Hl Hnil. apply (f_equal length) in Hnil. revert Hnil.
  unfold Array_slice. rewrite (proj2 (Z.ltb_lt (- n) 0)) by lia.
  rewrite length_drop. destruct l; [done|]. simpl. lia.
Qed.

Lemma Array_slice_ascending l n : ascending l → ascending (Array_slice l n).
Proof.
  unfold ascending, Array_slice. intros H.
  match goal with |- context [drop ?k l] => rewrite <- (take_drop k l) in H end.
  by apply StronglySorted_app_1_r in H.
Qed.

Lemma sort_by_timestamp_length l : length (sort_by_timestamp l) = length l.
Proof.
  induction l as [|m l IH]; [done|]. simpl. rewrite <- IH.
  generalize (sort_by_timestamp l). intros s. induction s as [|x s IHs]; [done|].
  simpl. case_match; simpl; [done|]. by rewrite IHs.
Qed.

(** What a run of cache writes over a healthy Redis leaves. *)
Lemma for_each_push_cache c l w :
  redis_faults w = [] →
  ∃ w', for_each l (λ message, pushMessage c message) w = (Ok tt, w')
        ∧ redis_faults w' = []
        ∧ firestore w' = firestore w
        ∧ firestore_faults w' = firestore_faults w
        ∧ durable_ops (trace w') = durable_ops (trace w)
        ∧ (l ≠ [] →
             lists (redis w') !! buildCacheKey "messages" [c] =
               Some (reverse (JSON_stringify <$> l)
                     ++ default [] (lists (redis w) !! buildCacheKey "messages" [c])))
        ∧ (l = [] → redis w' = redis w).
Proof.
  revert w. induction l as [|m l IH]; intros w Hr.
  { eexists. split; [reflexivity|]. done. }
  simpl. unfold pushMessage at 1. munfold. repeat (simpl; rewrite ?Hr).
  match goal with |- context [for_each l _ ?x] =>
    destruct (IH x) as (w' & -> & H1 & H2 & H3 & H4 & H5 & H6); [done|] end.
  eexists. split; [reflexivity|]. simpl in *.
  rewrite H4, !durable_ops_app. simpl. rewrite !app_nil_r.
  repeat split; try done. intros _.
  destruct (decide (l = [])) as [->|Hl].
  - rewrite (H6 eq_refl). simpl. by rewrite lookup_insert_eq.
  - rewrite (H5 Hl), lookup_insert_eq. simpl.
    by rewrite reverse_cons, <- app_assoc.
Qed.

(** A read that finds messages in the cache. *)
Lemma getMessages_hit c limit w :
  redis_faults w = [] → 0 < limit →
  default [] (lists (redis w) !! buildCacheKey "messages" [c]) ≠ [] →
  ∃ w', getMessages c limit w =
          (Ok (reverse (take (Z.to_nat limit)
                         (JSON_parse <$> default [] (lists (redis w)
                                                       !! buildCacheKey "messages" [c])))), w')
        ∧ durable_ops (trace w') = durable_ops (trace w)
        ∧ redis w' = redis w ∧ redis_faults w' = [] ∧ firestore w' = firestore w
        ∧ firestore_faults w' = firestore_faults w.
Proof.
  intros Hr Hpos Hne. unfold getMessages.
  unfold try_catch, mbind, M_bind, bind, logger, modify.
  rewrite getMessageList_healthy by done. cbn [redis add_trace].
  destruct (default [] (lists (redis w) !! buildCacheKey "messages" [c])) as [|j js] eqn:E;
    [done|].
  assert (Hlen : 0 <? Z.of_nat (length (reverse (take (Z.to_nat limit) (JSON_parse <$> j :: js))))
                 = true).
  { apply Z.ltb_lt. rewrite length_reverse, length_take. simpl. lia. }
  rewrite Hlen. cbn. eexists. split; [reflexivity|]. cbn.
  rewrite !durable_ops_app. cbn. by rewrite !app_nil_r.
Qed.

(** A read that finds nothing in the cache, over healthy stores. *)
Lemma getMessages_miss c limit w :
  redis_faults w = [] → firestore_healthy c w → 0 < limit →
  default [] (lists (redis w) !! buildCacheKey "messages" [c]) = [] →
  let history :=
    Array_slice (sort_by_timestamp (from_option d_messages [] (firestore w !! c))) (- limit) in
  ∃ w', getMessages c limit w = (Ok history, w')
        ∧ durable_ops (trace w') = durable_ops (trace w) ++ [FirestoreGet c]
        ∧ redis_faults w' = [] ∧ firestore w' = firestore w
        ∧ firestore_faults w' = firestore_faults w
        ∧ default [] (lists (redis w') !! buildCacheKey "messages" [c])
          = reverse (JSON_stringify <$> history).
Proof.
  intros Hr Hh Hpos Hc history. unfold firestore_healthy in Hh.
  unfold getMessages.
  unfold try_catch at 1. unfold mbind, M_bind, bind, logger, modify.
  rewrite getMessageList_healthy by done. cbn [redis add_trace].
  rewrite Hc. cbn [fmap list_fmap]. rewrite take_nil. cbn.
  unfold doc_get, firestore_send, gets, mbind, M_bind, bind, mret, M_ret, ret. cbn.
  change (0 <? Z.of_nat 0) with false. cbn. rewrite Hh. cbn.
  assert (Hcases : ∀ w0 : World,
    redis_faults w0 = [] → firestore w0 = firestore w →
    firestore_faults w0 = firestore_faults w → redis w0 = redis w →
    ∃ w', for_each history (λ message, pushMessage c message) w0 = (Ok tt, w')
          ∧ durable_ops (trace w') = durable_ops (trace w0)
          ∧ redis_faults w' = [] ∧ firestore w' = firestore w
          ∧ firestore_faults w' = firestore_faults w
          ∧ default [] (lists (redis w') !! buildCacheKey "messages" [c])
            = reverse (JSON_stringify <$> history)).
  { intros w0 Hr0 Hf0 Hff0 Hrd0.
    destruct (for_each_push_cache c history w0 Hr0)
      as (w' & Hrun & H1 & H2 & H3 & H4 & H5 & H6).
    exists w'. split; [done|]. repeat split; try congruence.
    destruct (decide (history = [])) as [Hnil|Hnil].
    - rewrite (H6 Hnil), Hrd0, Hc, Hnil. done.
    - rewrite (H5 Hnil), Hrd0, Hc. simpl. by rewrite app_nil_r. }
  subst history.
  destruct (firestore w !! c) as [d|] eqn:Ed; cbn; cbn [from_option] in Hcases.
  - match goal with |- context [for_each ?l _ ?x] =>
      destruct (Hcases x) as (w' & -> & H1 & H2 & H3 & H4 & H5); try done end.
    cbn. eexists. split; [reflexivity|].
    cbn [trace add_trace redis redis_faults firestore firestore_faults].
    rewrite !durable_ops_app, H1. cbn [trace add_trace].
    rewrite !durable_ops_app. cbn. by rewrite ?app_nil_r.
  - assert (Hnil : Array_slice (@nil Message) (- limit) = [])
      by (unfold Array_slice; apply drop_nil).
    rewrite Hnil. eexists. split; [reflexivity|].
    cbn [trace add_trace redis redis_faults firestore firestore_faults].
    rewrite !durable_ops_app. cbn. rewrite ?app_nil_r. by rewrite Hc.
Qed.


(** C9 (as amended).  A well-formed message received over a healthy Redis is
    cached and broadcast before its generation job is handed to the queue,
    and carries the time read by the handler.  Whatever the pipeline does
    and however much time passes before the job is processed, when the
    attempt that generates the response runs over healthy stores its
    response carries the time read after the generation; when moreover the
    generation takes at least a millisecond, that time is later than the time
    of the user message, and every read of a history that holds both, sorted
    by timestamp, holds both and places the user message before the
    response.  Such is the read of the Durable Store: when nothing is cached
    and the document holds both, a read of the history with a limit that
    covers the document returns both, the user message first. *)
Theorem user_message_precedes_response userId sd w0 activities io character g gs text :
  s_characterId sd ≠ "" →
  s_content sd ≠ "" →
  redis_faults w0 = [] →
  let u := user_message userId sd w0 in
  let job := job_of userId sd w0 in
  let w1 := after activities (exec (on_message_send userId sd) w0) in
  characters w1 !! s_characterId sd = Some character →
  redis_faults w1 = [] →
  firestore_healthy ("characters/" +:+ s_characterId sd) w1 →
  firestore_healthy (userId +:+ "_" +:+ s_characterId sd) w1 →
  generator w1 = g :: gs →
  g_result g = inl text →
  (0 < g_latency g)%N →
  let a := response_message job text g w1 in
  (∃ before between after_,
     trace (exec (on_message_send userId sd) w0) =
       trace w0 ++ before
       ++ [EmitMessage (room_of (j_conversationId job)) u (j_conversationId job)]
       ++ between ++ [Enqueue job] ++ after_
     ∧ RedisCmd "lPush" (buildCacheKey "messages" [j_conversationId job]) ∈ before
     ∧ enqueued before = [] ∧ enqueued between = [])
  ∧ outcome (processMessage job io) w1 = Ok (m_id a)
  ∧ broadcasts (trace (exec (processMessage job io) w1))
    = broadcasts (trace w1) ++ (if io then [(room_of (j_conversationId job), a)] else [])
  ∧ m_timestamp u = clock w0
  ∧ m_timestamp a = clock w1 + Z.of_N (g_latency g)
  ∧ m_timestamp u < m_timestamp a
  ∧ (∀ history, u ∈ history → a ∈ history →
       u ∈ sort_by_timestamp history ∧ a ∈ sort_by_timestamp history
       ∧ ∀ i j, sort_by_timestamp history !! i = Some a →
                sort_by_timestamp history !! j = Some u → (j < i)%nat)
  ∧ (∀ w d limit,
       redis_faults w = [] →
       firestore_healthy (j_conversationId job) w →
       default [] (lists (redis w) !! buildCacheKey "messages" [j_conversationId job]) = [] →
       firestore w !! j_conversationId job = Some d →
       u ∈ d_messages d → a ∈ d_messages d →
       Z.of_nat (length (d_messages d)) ≤ limit →
       ∃ history,
         outcome (getMessages (j_conversationId job) limit) w = Ok history
         ∧ u ∈ history ∧ a ∈ history
         ∧ ∀ i j, history !! i = Some a → history !! j = Some u → (j < i)%nat).
Proof.
  intros Hc Hk Hr0 u job w1 Hch Hr1 Hhc Hh Hg Ht Hlat a.
  assert (Hclock : m_timestamp u < m_timestamp a).
  { pose proof (clock_on_message_send userId sd w0) as H1. unfold clock_le in H1.
    pose proof (clock_after activities (exec (on_message_send userId sd) w0)) as H2.
    fold w1 in H2. unfold exec in H2 at 1. simpl. lia. }
  destruct (processMessage_healthy job io w1 character g gs text) as (w' & Hrun & Hbr & _);
    try done.
  assert (Hsorted : ∀ history, u ∈ history → a ∈ history →
            u ∈ sort_by_timestamp history ∧ a ∈ sort_by_timestamp history
            ∧ ∀ i j, sort_by_timestamp history !! i = Some a →
                     sort_by_timestamp history !! j = Some u → (j < i)%nat).
  { intros history Hu Ha. split; [by apply sort_by_timestamp_elem|].
    split; [by apply sort_by_timestamp_elem|]. intros i j Hi Hj.
    by eapply (ascending_precedes _ u a); [apply sort_by_timestamp_ascending| |done|done]. }
  split; [|split; [|split; [|split; [|split; [|split; [|split]]]]]].
  - destruct (on_message_send_healthy userId sd w0 Hc Hk Hr0) as (w0' & Hrun0 & Htr & _).
    unfold exec. rewrite Hrun0. simpl. rewrite Htr.
    eexists [_; _; _; _; _; _], [_; _; _], [_; _]. split; [reflexivity|].
    split; [set_solver|done].
  - unfold outcome. by rewrite Hrun.
  - unfold exec. by rewrite Hrun.
  - done.
  - done.
  - exact Hclock.
  - exact Hsorted.
  - intros w d limit Hr Hhw Hcache Hd Hu Ha Hlimit.
    assert (Hpos : 0 < limit).
    { destruct (d_messages d) as [|m l]; [by apply elem_of_nil in Hu|].
      simpl in Hlimit. lia. }
    destruct (getMessages_miss (j_conversationId job) limit w Hr Hhw Hpos Hcache)
      as (wr & Hread & _).
    rewrite Hd in Hread. cbn [from_option] in Hread.
    assert (Hall : Array_slice (sort_by_timestamp (d_messages d)) (- limit)
                   = sort_by_timestamp (d_messages d)).
    { unfold Array_slice. rewrite (proj2 (Z.ltb_lt (- limit) 0)) by lia.
      rewrite sort_by_timestamp_length.
      replace (Z.to_nat (Z.max (Z.of_nat (length (d_messages d)) + - limit) 0))
        with 0%nat by lia. done. }
    rewrite Hall in Hread.
    exists (sort_by_timestamp (d_messages d)). unfold outcome. rewrite Hread.
    split; [done|]. by apply Hsorted.
Qed.


End Pipeline.

(** * Instances *)

(** What the persistence scheduler leaves in Redis for the example exchange. *)
Example scheduled_exchange :
  redis (exec (queueMessagesForBatchWrite default_config sample_length_doc
                 sample_length_messages "u1_c1" "u1" "c1"
                 [message_at 0 "user" "Hello"; message_at 1000 "character" "Hi there"])
              (set_clock 1000 world0))
  = redis_pending.
Proof. vm_compute. reflexivity. Qed.

(** *** The socket handler *)

(** With Redis rejecting the cache write, the only acknowledgment the sender
    of ['Hello'] gets is a failure. *)
Lemma message_send_ack_is_failure :
  callbacks (trace (exec (on_message_send default_config "u1" hello) world_redis_down))
  = [AckFailure "Failed to process message"].
Proof. vm_compute. reflexivity. Qed.

Lemma message_send_hot_store_failure_witness :
  s_characterId hello ≠ "" ∧ s_content hello ≠ ""
  ∧ hot_store_write_fails world_redis_down = true
  ∧ enqueued (trace (exec (on_message_send default_config "u1" hello) world_redis_down))
    = enqueued (trace world_redis_down).
Proof.
  assert (H1 : s_characterId hello ≠ "") by discriminate.
  assert (H2 : s_content hello ≠ "") by discriminate.
  assert (H3 : hot_store_write_fails world_redis_down = true) by reflexivity.
  split; [exact H1|]. split; [exact H2|]. split; [exact H3|].
  exact (proj1 (proj2 (proj2
    (message_send_hot_store_failure default_config "u1" hello world_redis_down H1 H2 H3)))).
Defined.

(** *** The durable merge *)

(** Merging the same message twice counts it twice. *)
Lemma saveConversation_twice_counts_twice :
  let save := saveConversation sample_length_doc sample_length_messages
                "u1_c1" (Some "u1") (Some "c1") [message_at 0 "user" "Hello"] in
  let w1 := exec save world0 in
  let w2 := exec save w1 in
  d_messageCount <$> firestore w1 !! "u1_c1" = Some 1
  ∧ d_messageCount <$> firestore w2 !! "u1_c1" = Some 2
  ∧ length <$> (d_messages <$> firestore w2 !! "u1_c1") = Some 1%nat.
Proof. vm_compute. done. Qed.

Lemma saveConversation_twice_witness :
  firestore_healthy "u1_c1" world0
  ∧ [message_at 0 "user" "Hello"] ≠ []
  ∧ ∃ d1 d2,
      firestore (exec (saveConversation sample_length_doc sample_length_messages
                         "u1_c1" (Some "u1") (Some "c1")
                         [message_at 0 "user" "Hello"]) world0) !! "u1_c1" = Some d1
      ∧ d_messages d2 = d_messages d1
      ∧ d_messageCount d2 = d_messageCount d1 + 1.
Proof.
  assert (H1 : firestore_healthy "u1_c1" world0) by reflexivity.
  assert (H2 : [message_at 0 "user" "Hello"] ≠ []) by discriminate.
  split; [exact H1|]. split; [exact H2|].
  destruct (saveConversation_twice sample_length_doc sample_length_messages
              "u1_c1" (Some "u1") (Some "c1")
              [message_at 0 "user" "Hello"] world0 5 H1 H2)
    as (d1 & d2 & Hd1 & _ & Hm & _ & _ & Hc & _).
  exists d1, d2. split; [exact Hd1|]. split; [exact Hm|exact Hc].
Defined.

(** *** The persistence scheduler *)

Lemma queue_reschedules_witness :
  hd None (redis_faults world_pending) = None
  ∧ schedule_entries "u1_c1"
      (exec (queueMessagesForBatchWrite default_config sample_length_doc
               sample_length_messages "u1_c1" "u1" "c1"
               [message_at 130000 "user" "Again"]) world_pending)
    = [("u1_c1", 241000)].
Proof.
  assert (H : hd None (redis_faults world_pending) = None) by reflexivity.
  split; [exact H|].
  exact (proj1 (queue_reschedules default_config sample_length_doc sample_length_messages
                  "u1_c1" "u1" "c1" [message_at 130000 "user" "Again"] world_pending) H).
Defined.

(** *** The batch writer *)

(** C5.  With [BATCH_WRITE_MAX_MESSAGES=0], the flush of a pending batch of
    one message logs the truncation warning and then writes the whole batch:
    [messages.slice(-0)] is [messages.slice(0)].  One message is persisted,
    not zero. *)
Lemma zero_limit_persists_whole_batch :
  let w := set_redis
             (λ r, {| lists := {[ "pending_messages:u1_c1" :=
                                    [JSON_stringify (message_at 0 "user" "Hello")] ]};
                      hashes := hashes r; zsets := zsets r; expiry := expiry r;
                      dlq := dlq r; strings := strings r |})
             world_pending in
  let w' := exec (writeConversationBatch (config_max 0) sample_length_doc
                    sample_length_messages "u1_c1") w in
  maxMessagesPerBatch (config_max 0) < Z.of_nat (length (pending_batch "u1_c1" w))
  ∧ d_messages <$> firestore w' !! "u1_c1" = Some [message_at 0 "user" "Hello"]
  ∧ warnings (trace w') = ["Batch size exceeded, truncating"].
Proof. vm_compute. done. Qed.

Lemma oversized_batch_is_truncated_witness :
  0 < maxMessagesPerBatch (config_max 1)
  ∧ maxMessagesPerBatch (config_max 1) < Z.of_nat (length (pending_batch "u1_c1" world_pending))
  ∧ redis_faults world_pending = []
  ∧ firestore_healthy "u1_c1" world_pending
  ∧ ∃ older kept,
      pending_batch "u1_c1" world_pending = older ++ kept
      ∧ Z.of_nat (length kept) = 1.
Proof.
  assert (H1 : 0 < maxMessagesPerBatch (config_max 1)) by reflexivity.
  assert (H2 : maxMessagesPerBatch (config_max 1)
               < Z.of_nat (length (pending_batch "u1_c1" world_pending))) by reflexivity.
  assert (H3 : redis_faults world_pending = []) by reflexivity.
  assert (H4 : firestore_healthy "u1_c1" world_pending) by reflexivity.
  split; [exact H1|]. split; [exact H2|]. split; [exact H3|]. split; [exact H4|].
  destruct (oversized_batch_is_truncated (config_max 1) sample_length_doc
              sample_length_messages "u1_c1" world_pending H1 H2 H3 H4)
    as (older & kept & Hp & Hk & _).
  exists older, kept. split; [exact Hp|exact Hk].
Defined.

Lemma flush_of_empty_batch_witness :
  redis_faults world0 = []
  ∧ pending_batch "u1_c1" world0 = []
  ∧ firestore (exec (writeConversationBatch default_config sample_length_doc
                       sample_length_messages "u1_c1") world0)
    = firestore world0.
Proof.
  assert (H1 : redis_faults world0 = []) by reflexivity.
  assert (H2 : pending_batch "u1_c1" world0 = []) by reflexivity.
  split; [exact H1|]. split; [exact H2|].
  exact (proj1 (proj2 (proj2
    (proj1 (flush_of_empty_batch default_config sample_length_doc sample_length_messages
              "u1_c1" world0 H1) H2)))).
Defined.


(** The dead-letter entry of the example. *)
Example dead_letter_example :
  dlq (redis (exec (processWriteQueue default_config sample_length_doc
                      sample_length_messages) world_durable_down))
  = [{| dl_conversationId := "u1_c1";
        dl_messages := [JSON_stringify (message_at 0 "user" "Hello");
                        JSON_stringify (message_at 1000 "character" "Hi there")];
        dl_metadata := {[ "userId" := "u1"; "characterId" := "c1";
                          "createdAt" := "1000" ]};
        dl_failedAt := 128000;
        dl_error := "DEADLINE_EXCEEDED" |}].
Proof. vm_compute. reflexivity. Qed.

(** *** Reading the Hot Store *)

(** A limit of zero returns everything that is cached; and the messages come
    in the order of appending, not in the order of their timestamps. *)
Lemma hot_store_read_unbounded_and_unsorted :
  outcome (getMessageList default_config "u1_c1" 0) world_cached
  = Ok [message_at 2 "user" "Hello"; message_at 1 "character" "Hi there"]
  ∧ outcome (getMessageList default_config "u1_c1" 50) world_cached
    = Ok [message_at 2 "user" "Hello"; message_at 1 "character" "Hi there"]
  ∧ outcome (getMessages default_config "u1_c1" 50) world_cached
    = Ok [message_at 2 "user" "Hello"; message_at 1 "character" "Hi there"]
  ∧ ¬ ascending [message_at 2 "user" "Hello"; message_at 1 "character" "Hi there"].
Proof.
  split; [by vm_compute|]. split; [by vm_compute|]. split; [by vm_compute|].
  intros H. apply StronglySorted_cons in H as [H _].
  apply Forall_cons in H as [H _]. vm_compute in H. by apply H.
Qed.

Lemma hot_store_recent_witness :
  redis_faults world_cached = []
  ∧ 0 < 1
  ∧ outcome (getMessageList default_config "u1_c1" 1) world_cached
    = Ok [message_at 1 "character" "Hi there"].
Proof.
  assert (H1 : redis_faults world_cached = []) by reflexivity.
  assert (H2 : 0 < 1) by reflexivity.
  split; [exact H1|]. split; [exact H2|].
  exact (proj1 (hot_store_recent default_config "u1_c1" 1 world_cached H1 H2)).
Defined.

(** *** The generation job *)

(** A job whose three attempts fail: it ends failed with the error of the
    third attempt, 2000 ms and 4000 ms of backoff after the start. *)
Lemma generation_job_retry_policy_witness :
  let job := job_of "u1" hello world0 in
  let attempt := processMessage default_config sample_length_doc sample_length_messages
                   job true in
  let w1 := (attempt world_generator_down).2 in
  let w2 := (attempt (exec (sleep 2000) w1)).2 in
  let w3 := (attempt (exec (sleep 4000) w2)).2 in
  attempt world_generator_down = (Throw "AI service unavailable: timeout", w1)
  ∧ attempt (exec (sleep 2000) w1) = (Throw "AI service unavailable: timeout", w2)
  ∧ attempt (exec (sleep 4000) w2) = (Throw "AI service unavailable: overloaded", w3)
  ∧ run_job default_config sample_length_doc sample_length_messages job true
      world_generator_down
    = (Ok (Failed "AI service unavailable: overloaded" 3), w3)
  ∧ clock w3 = 6300.
Proof.
  intros job attempt w1 w2 w3.
  assert (H1 : attempt world_generator_down = (Throw "AI service unavailable: timeout", w1))
    by (vm_compute; reflexivity).
  assert (H2 : attempt (exec (sleep 2000) w1) = (Throw "AI service unavailable: timeout", w2))
    by (vm_compute; reflexivity).
  assert (H3 : attempt (exec (sleep 4000) w2)
               = (Throw "AI service unavailable: overloaded", w3))
    by (vm_compute; reflexivity).
  split; [exact H1|]. split; [exact H2|]. split; [exact H3|].
  split; [|vm_compute; reflexivity].
  exact (proj2 (proj2 (proj1 (proj2
    (generation_job_retry_policy default_config sample_length_doc sample_length_messages
       job true world_generator_down))
    _ _ H1) _ _ H2) _ _ H3).
Defined.

(** *** Ordering of a message and its response *)

(** With the clock set back between the reading of the handler and that of
    the worker, the response sorts before the message it answers: in the Hot
    Store after the job, and in the Durable Store after the flush. *)
Lemma response_sorts_first_after_clock_set_back :
  let w0 := set_clock 5000 world0 in
  let w1 := exec (on_message_send default_config "u1" hello) w0 in
  let w2 := exec (run_job default_config sample_length_doc sample_length_messages
                    (job_of "u1" hello w0) true) (set_clock 0 w1) in
  let w3 := exec (processWriteQueue default_config sample_length_doc sample_length_messages)
              (set_clock 200000 w2) in
  let view := λ m, (m_sender m, m_timestamp m) in
  view <$> sort_by_timestamp
             (JSON_parse <$> default [] (lists (redis w2) !! "aim:messages:u1_c1"))
  = [("character", 1000); ("user", 5000)]
  ∧ view <$> sort_by_timestamp (from_option d_messages [] (firestore w3 !! "u1_c1"))
    = [("character", 1000); ("user", 5000)].
Proof. vm_compute. done. Qed.

Lemma user_message_precedes_response_witness :
  let w1 := after default_config sample_length_doc sample_length_messages
              [TimePasses 500] (exec (on_message_send default_config "u1" hello) world0) in
  let character := {| ch_id := "c1"; ch_name := "Ann" |} in
  let g := {| g_latency := 1000%N; g_result := inl "Hi there" |} in
  s_characterId hello ≠ "" ∧ s_content hello ≠ ""
  ∧ redis_faults world0 = []
  ∧ characters w1 !! s_characterId hello = Some character
  ∧ redis_faults w1 = []
  ∧ firestore_healthy ("characters/" +:+ s_characterId hello) w1
  ∧ firestore_healthy ("u1" +:+ "_" +:+ s_characterId hello) w1
  ∧ generator w1 = [g]
  ∧ g_result g = inl "Hi there"
  ∧ (0 < g_latency g)%N
  ∧ m_timestamp (user_message "u1" hello world0)
    < m_timestamp (response_message (job_of "u1" hello world0) "Hi there" g w1).
Proof.
  intros w1 character g.
  assert (H1 : s_characterId hello ≠ "") by discriminate.
  assert (H2 : s_content hello ≠ "") by discriminate.
  assert (H3 : redis_faults world0 = []) by reflexivity.
  assert (H4 : characters w1 !! s_characterId hello = Some character)
    by (vm_compute; reflexivity).
  assert (H5 : redis_faults w1 = []) by (vm_compute; reflexivity).
  assert (H6 : firestore_healthy ("characters/" +:+ s_characterId hello) w1)
    by (vm_compute; reflexivity).
  assert (H7 : firestore_healthy ("u1" +:+ "_" +:+ s_characterId hello) w1)
    by (vm_compute; reflexivity).
  assert (H8 : generator w1 = [g]) by (vm_compute; reflexivity).
  assert (H9 : g_result g = inl "Hi there") by reflexivity.
  assert (H10 : (0 < g_latency g)%N) by reflexivity.
  repeat (split; [assumption|]).
  exact (proj1 (proj2 (proj2 (proj2 (proj2 (proj2
    (user_message_precedes_response default_config sample_length_doc
       sample_length_messages "u1" hello world0 [TimePasses 500] true
       character g [] "Hi there" H1 H2 H3 H4 H5 H6 H7 H8 H9 H10))))))).
Defined.

(** *** Falling back to the immediate write *)


(** The fallback of the example: the message reaches the document although
    nothing was scheduled. *)
Example fallback_example :
  let w' := exec (queueMessagesForBatchWrite default_config sample_length_doc
                    sample_length_messages "u1_c1" "u1" "c1"
                    [message_at 0 "user" "Hello"]) world_redis_down in
  d_messages <$> firestore w' !! "u1_c1" = Some [message_at 0 "user" "Hello"]
  ∧ write_queue w' = [] ∧ pending_batch "u1_c1" w' = [].
Proof. vm_compute. done. Qed.

(** *** The example of the specification *)

(** ['Hello'] at 0 s; the response ['Hi there'] one second later; both
    scheduled for 121 s; the pass of the batch writer at 121 s merges both in
    one durable write and leaves nothing pending. *)
Example end_to_end :
  let w1 := exec (on_message_send default_config "u1" hello) world0 in
  let job := job_of "u1" hello world0 in
  let w2 := exec (run_job default_config sample_length_doc sample_length_messages
                    job true) w1 in
  let w3 := exec (processWriteQueue default_config sample_length_doc sample_length_messages)
              (set_clock 121000 w2) in
  enqueued (trace w1) = [job]
  ∧ write_queue w2 = [("u1_c1", 121000)]
  ∧ (λ j, m_timestamp (JSON_parse j)) <$> pending_batch "u1_c1" w2 = [0; 1000]
  ∧ (λ d, m_timestamp <$> d_messages d) <$> firestore w3 !! "u1_c1" = Some [0; 1000]
  ∧ durable_ops (trace w3)
    = [FirestoreGet "characters/c1"; FirestoreGet "u1_c1"; FirestoreSet "u1_c1"]
  ∧ write_queue w3 = [] ∧ pending_batch "u1_c1" w3 = [].
Proof. vm_compute. done. Qed.
